(** * multidensity: the Demarta & McNeil multivariate Student densities

    A shallow embedding of [multidensity/skstdm.py] (class [SkStDM]) and
    [multidensity/mvst.py] (class [MvSt]).

    Numbers.  A NumPy float is modelled by [num]: a real number, one of the
    two infinities, or NaN.  Arithmetic on finite values is exact (no
    rounding, no overflow, no signed zero); the special values follow
    IEEE 754 as NumPy applies it (division by zero gives an infinity or NaN,
    never an exception).  Python floats and ints are identified with NumPy
    scalars; they differ where a Python float divides by zero (it raises) or
    takes a fractional power of a negative number, and the statements below
    that reach such a value do so on NumPy arrays.

    Arrays.  An [ndarray] is a scalar, a one-dimensional array or a
    two-dimensional array with its column count; binary operations follow
    NumPy's broadcasting rule and fail with [Broadcast] where NumPy raises.

    Libraries.  [scipy.linalg.det] and [scipy.linalg.solve] are modelled by
    their exact results (Laplace expansion, Cramer's rule) and by the errors
    they raise; a singular matrix is one whose exact determinant is zero.
    [scipy.special]'s [gammaln], [gamma] and [kv] are an interface
    ([Special]) with the laws used below.  The random draws of [rvs] are
    arguments; what SciPy demands of the parameters of the two laws is a
    hypothesis of the statements on [rvs].

    Range.  The doubles end at [dbl_max].  The theorems that give a value
    of [pdf] in closed form give it at an ordinary input, where the exact
    value and its factors are far from the ends of that range.

    Objects.  A density object is the record of its fields, and a method is a
    function of the record.  A method that assigns a field returns the new
    record; [pdf] returns it together with its value or its exception. *)

From Stdlib Require Import Reals Lra Lia List Bool Arith ZArith Machin.
Import ListNotations.
Open Scope R_scope.

(** ** NumPy scalars *)

Inductive num : Type :=
| Fin (r : R)
| PInf
| NInf
| NaN.

(** The sign of a real, as a [comparison] with zero. *)
Definition Rsgn (x : R) : comparison :=
  match total_order_T x 0 with
  | inleft (left _) => Lt
  | inleft (right _) => Eq
  | inright _ => Gt
  end.

(** The infinity of a given sign; a zero sign stands for [0 * inf] or [0 / 0]. *)
Definition inf_of (c : comparison) : num :=
  match c with
  | Gt => PInf
  | Lt => NInf
  | Eq => NaN
  end.

Definition nneg (x : num) : num :=
  match x with
  | Fin a => Fin (- a)
  | PInf => NInf
  | NInf => PInf
  | NaN => NaN
  end.

Definition nadd (x y : num) : num :=
  match x, y with
  | Fin a, Fin b => Fin (a + b)
  | NaN, _ | _, NaN => NaN
  | PInf, NInf | NInf, PInf => NaN
  | PInf, _ | _, PInf => PInf
  | NInf, _ | _, NInf => NInf
  end.

Definition nsub (x y : num) : num :=
  match x, y with
  | Fin a, Fin b => Fin (a - b)
  | NaN, _ | _, NaN => NaN
  | PInf, PInf | NInf, NInf => NaN
  | PInf, _ | _, NInf => PInf
  | NInf, _ | _, PInf => NInf
  end.

Definition nmul (x y : num) : num :=
  match x, y with
  | Fin a, Fin b => Fin (a * b)
  | NaN, _ | _, NaN => NaN
  | Fin a, PInf | PInf, Fin a => inf_of (Rsgn a)
  | Fin a, NInf | NInf, Fin a => inf_of (CompOpp (Rsgn a))
  | PInf, PInf | NInf, NInf => PInf
  | PInf, NInf | NInf, PInf => NInf
  end.

Definition ndiv (x y : num) : num :=
  match x, y with
  | NaN, _ | _, NaN => NaN
  | Fin a, Fin b => if Req_dec_T b 0 then inf_of (Rsgn a) else Fin (a / b)
  | Fin _, PInf | Fin _, NInf => Fin 0
  | PInf, Fin b => match Rsgn b with Lt => NInf | _ => PInf end
  | NInf, Fin b => match Rsgn b with Lt => PInf | _ => NInf end
  | _, _ => NaN
  end.

Definition nexp (x : num) : num :=
  match x with
  | Fin a => Fin (exp a)
  | PInf => PInf
  | NInf => Fin 0
  | NaN => NaN
  end.

(** [y] is an integer, and its parity. *)
Definition is_int (y : R) : bool :=
  if Req_dec_T (IZR (Int_part y)) y then true else false.

Definition is_odd (y : R) : bool := Z.odd (Int_part y).

(** [x ** y] for a finite base and a finite exponent (C's [pow]). *)
Definition Rpow (x y : R) : num :=
  if Req_dec_T y 0 then Fin 1
  else match Rsgn x with
       | Gt => Fin (Rpower x y)
       | Eq => match Rsgn y with Lt => PInf | _ => Fin 0 end
       | Lt => if is_int y
               then if is_odd y then Fin (- Rpower (- x) y)
                    else Fin (Rpower (- x) y)
               else NaN
       end.

(** [x ** y]: anything to the power 0 is 1 and 1 to any power is 1, NaN
    included; a negative base with a fractional exponent gives NaN.  (NumPy
    takes an array to the power 0.5 by a square root, which differs from
    [pow] at the base [-inf] only.) *)
Definition npow (x y : num) : num :=
  match x, y with
  | Fin a, Fin b => Rpow a b
  | NaN, Fin b => if Req_dec_T b 0 then Fin 1 else NaN
  | Fin a, NaN => if Req_dec_T a 1 then Fin 1 else NaN
  | NaN, _ | _, NaN => NaN
  | PInf, Fin b => match Rsgn b with Gt => PInf | Eq => Fin 1 | Lt => Fin 0 end
  | NInf, Fin b =>
      match Rsgn b with
      | Gt => if is_int b && is_odd b then NInf else PInf
      | Eq => Fin 1
      | Lt => Fin 0
      end
  | Fin a, PInf =>
      match Rsgn (Rabs a - 1) with Lt => Fin 0 | Eq => Fin 1 | Gt => PInf end
  | Fin a, NInf =>
      match Rsgn (Rabs a - 1) with Lt => PInf | Eq => Fin 1 | Gt => Fin 0 end
  | PInf, PInf | NInf, PInf => PInf
  | PInf, NInf | NInf, NInf => Fin 0
  end.

Definition is_fin (x : num) : bool :=
  match x with Fin _ => true | _ => false end.

Definition to_R (x : num) : R :=
  match x with Fin a => a | _ => 0 end.

(** A density value is non-negative: a finite real [>= 0] or [+inf]; NaN is
    not. *)
Definition nonneg (x : num) : Prop :=
  match x with
  | Fin a => 0 <= a
  | PInf => True
  | NInf | NaN => False
  end.

(** ** Exceptions *)

Inductive exn : Type :=
| NoData      (** [ValueError('No data given!')], raised by [pdf] itself *)
| Broadcast   (** NumPy: operands could not be broadcast together *)
| NotAligned  (** NumPy: shapes not aligned in [dot] *)
| NotFinite   (** SciPy: array must not contain infs or NaNs *)
| BadShape    (** SciPy: a square matrix or matching dimensions expected *)
| Singular    (** SciPy: [LinAlgError], the matrix is singular *)
| IndexError. (** Python: index out of range *)

Inductive result (A : Type) : Type :=
| Ok (a : A)
| Err (e : exn).
Arguments Ok {A} a.
Arguments Err {A} e.

Definition bind {A B : Type} (r : result A) (k : A -> result B) : result B :=
  match r with
  | Ok a => k a
  | Err e => Err e
  end.

Notation "x <- r ;; k" := (bind r (fun x => k))
  (at level 61, r at next level, right associativity).

(** ** NumPy arrays *)

Inductive ndarray : Type :=
| Sca (x : num)
| Vec (v : list num)
| Mat (cols : nat) (rows : list (list num)).

(** A Python int and a Python float, as NumPy sees them in arithmetic. *)
Definition int (n : nat) : ndarray := Sca (Fin (INR n)).
Definition flt (r : R) : ndarray := Sca (Fin r).

Fixpoint zipWith {A B C : Type} (f : A -> B -> C) (u : list A) (v : list B)
  : list C :=
  match u, v with
  | a :: u', b :: v' => f a b :: zipWith f u' v'
  | _, _ => []
  end.

(** Two dimensions broadcast when they are equal or one of them is 1. *)
Definition bdim (a b : nat) : option nat :=
  if Nat.eqb a b then Some a
  else if Nat.eqb a 1 then Some b
  else if Nat.eqb b 1 then Some a
  else None.

(** Pairing along an axis whose two lengths broadcast: an axis of length 1
    is repeated. *)
Definition bzip {A B C : Type} (f : A -> B -> C) (u : list A) (v : list B)
  : list C :=
  match u, v with
  | [a], _ => map (f a) v
  | _, [b] => map (fun a => f a b) u
  | _, _ => zipWith f u v
  end.

(** An element-wise binary operation with broadcasting. *)
Definition binop (f : num -> num -> num) (x y : ndarray) : result ndarray :=
  match x, y with
  | Sca a, Sca b => Ok (Sca (f a b))
  | Sca a, Vec v => Ok (Vec (map (f a) v))
  | Vec u, Sca b => Ok (Vec (map (fun a => f a b) u))
  | Sca a, Mat c m => Ok (Mat c (map (map (f a)) m))
  | Mat c m, Sca b => Ok (Mat c (map (map (fun a => f a b)) m))
  | Vec u, Vec v =>
      match bdim (length u) (length v) with
      | Some _ => Ok (Vec (bzip f u v))
      | None => Err Broadcast
      end
  | Vec u, Mat c m =>
      match bdim (length u) c with
      | Some c' => Ok (Mat c' (map (fun row => bzip f u row) m))
      | None => Err Broadcast
      end
  | Mat c m, Vec v =>
      match bdim c (length v) with
      | Some c' => Ok (Mat c' (map (fun row => bzip f row v) m))
      | None => Err Broadcast
      end
  | Mat c1 m1, Mat c2 m2 =>
      match bdim (length m1) (length m2), bdim c1 c2 with
      | Some _, Some c => Ok (Mat c (bzip (bzip f) m1 m2))
      | _, _ => Err Broadcast
      end
  end.

Definition add := binop nadd.
Definition sub := binop nsub.
Definition mul := binop nmul.
Definition div := binop ndiv.
Definition pow := binop npow.

(** A unary ufunc. *)
Definition ufunc (f : num -> num) (x : ndarray) : ndarray :=
  match x with
  | Sca a => Sca (f a)
  | Vec v => Vec (map f v)
  | Mat c m => Mat c (map (map f) m)
  end.

(** Unary minus. *)
Definition neg := ufunc nneg.

(** [np.exp]. *)
Definition np_exp := ufunc nexp.

(** [np.zeros(n)] and [np.eye(n)]. *)
Definition zeros (n : nat) : ndarray := Vec (repeat (Fin 0) n).

Definition eye_rows (n : nat) : list (list num) :=
  map (fun i => map (fun j => if Nat.eqb i j then Fin 1 else Fin 0) (seq 0 n))
      (seq 0 n).

Definition eye (n : nat) : ndarray := Mat n (eye_rows n).

(** [np.atleast_1d] and [np.atleast_2d]. *)
Definition atleast_1d (x : ndarray) : ndarray :=
  match x with
  | Sca a => Vec [a]
  | _ => x
  end.

Definition atleast_2d (x : ndarray) : ndarray :=
  match x with
  | Sca a => Mat 1 [[a]]
  | Vec v => Mat (length v) [v]
  | Mat c m => Mat c m
  end.

(** [x.size]. *)
Definition size (x : ndarray) : nat :=
  match x with
  | Sca _ => 1
  | Vec v => length v
  | Mat c m => (length m * c)%nat
  end.

(** [x.shape]. *)
Definition shape (x : ndarray) : list nat :=
  match x with
  | Sca _ => []
  | Vec v => [length v]
  | Mat c m => [length m; c]
  end.

(** The first entries of the rows, and the rows without them. *)
Definition heads {A : Type} (m : list (list A)) : list A :=
  flat_map (firstn 1) m.

Definition tails {A : Type} (m : list (list A)) : list (list A) :=
  map (@tl A) m.

(** The [c] columns of a matrix whose rows have length [c]. *)
Fixpoint columns {A : Type} (c : nat) (m : list (list A)) : list (list A) :=
  match c with
  | O => []
  | S c' => heads m :: columns c' (tails m)
  end.

(** [x.T]. *)
Definition transpose (x : ndarray) : ndarray :=
  match x with
  | Mat c m => Mat (length m) (columns c m)
  | _ => x
  end.

(** [v[:, np.newaxis]] for a one-dimensional [v]. *)
Definition newaxis (v : list num) : ndarray :=
  Mat 1 (map (fun a => [a]) v).

(** The sum of a list of numbers, from the left. *)
Definition nsum (v : list num) : num := fold_left nadd v (Fin 0).

(** [x.sum(0)]: along the first axis. *)
Definition sum0 (x : ndarray) : ndarray :=
  match x with
  | Sca a => Sca a
  | Vec v => Sca (nsum v)
  | Mat c m => Vec (fold_left (zipWith nadd) m (repeat (Fin 0) c))
  end.

(** [x.sum()]: over all entries. *)
Definition sum_all (x : ndarray) : ndarray :=
  match x with
  | Sca a => Sca a
  | Vec v => Sca (nsum v)
  | Mat c m => Sca (nsum (concat m))
  end.

(** [x.dot(v)] for a one-dimensional [v]. *)
Definition dot (x : ndarray) (v : list num) : result ndarray :=
  match x with
  | Sca a => Ok (Vec (map (nmul a) v))
  | Vec u =>
      if Nat.eqb (length u) (length v) then Ok (Sca (nsum (zipWith nmul u v)))
      else Err NotAligned
  | Mat c m =>
      if Nat.eqb c (length v)
      then Ok (Vec (map (fun row => nsum (zipWith nmul row v)) m))
      else Err NotAligned
  end.

(** Every entry is finite. *)
Definition finite (x : ndarray) : bool :=
  match x with
  | Sca a => is_fin a
  | Vec v => forallb is_fin v
  | Mat _ m => forallb (forallb is_fin) m
  end.

(** ** scipy.linalg, in exact arithmetic *)

(** A row without its [j]-th entry, and with its [i]-th entry replaced. *)
Definition drop_nth {A : Type} (j : nat) (row : list A) : list A :=
  firstn j row ++ skipn (S j) row.

Definition set_nth {A : Type} (i : nat) (b : A) (row : list A) : list A :=
  firstn i row ++ b :: skipn (S i) row.

(** The determinant of an [n]-by-[n] matrix, expanded along its first row. *)
Fixpoint detR (n : nat) (A : list (list R)) : R :=
  match n, A with
  | O, _ => 1
  | S n', row :: rest =>
      fold_right Rplus 0
        (map (fun j => (-1) ^ j * nth j row 0 * detR n' (map (drop_nth j) rest))
             (seq 0 n))
  | S _, [] => 0
  end.

(** [A] with its [i]-th column replaced by [b]. *)
Definition set_col (i : nat) (b : list R) (A : list (list R))
  : list (list R) :=
  zipWith (fun row bi => set_nth i bi row) A b.

(** Cramer's rule: the solution [x] of [A x = b] for a regular [A]. *)
Definition cramer (n : nat) (A : list (list R)) (b : list R) : list R :=
  map (fun i => detR n (set_col i b A) / detR n A) (seq 0 n).

(** [scipy.linalg.det(a)]: the entries are checked to be finite, then the
    shape to be square. *)
Definition det (a : ndarray) : result ndarray :=
  if finite a then
    match a with
    | Mat c m =>
        if Nat.eqb (length m) c
        then Ok (Sca (Fin (detR c (map (map to_R) m))))
        else Err BadShape
    | _ => Err BadShape
    end
  else Err NotFinite.

(** [scipy.linalg.solve(a, b)]: both arguments are checked to be finite, [a]
    to be square and [b] to have as many rows as [a]; a singular [a] raises
    [LinAlgError].  A two-dimensional [b] is solved column by column. *)
Definition solve (a b : ndarray) : result ndarray :=
  if finite a && finite b then
    match atleast_2d a with
    | Mat c m =>
        let A := map (map to_R) m in
        if Nat.eqb (length m) c then
          match atleast_1d b with
          | Vec v =>
              if Nat.eqb (length v) c then
                if Req_dec_T (detR c A) 0 then Err Singular
                else Ok (Vec (map Fin (cramer c A (map to_R v))))
              else Err BadShape
          | Mat T rows =>
              if Nat.eqb (length rows) c then
                if Req_dec_T (detR c A) 0 then Err Singular
                else Ok (Mat T (map (map Fin)
                       (columns c (map (cramer c A)
                                       (columns T (map (map to_R) rows))))))
              else Err BadShape
          | Sca _ => Err BadShape
          end
        else Err BadShape
    | _ => Err BadShape
    end
  else Err NotFinite.

(** ** scipy.special *)

(** The special functions reach the code through SciPy.  [Gamma] is Euler's
    gamma function and [BesselK v] the modified Bessel function of the second
    kind, on the positive reals; [gammaln], [gamma] and [kv] are SciPy's
    functions on floats.  The laws say what SciPy computes on the positive
    reals (up to rounding and overflow, which [num] leaves out) and at the
    one argument of [kv] that matters below: [kv(v, 0) = inf]. *)
Class Special : Type := {
  Gamma : R -> R;
  BesselK : R -> R -> R;
  gammaln : num -> num;
  gamma : num -> num;
  kv : num -> num -> num;
  Gamma_pos : forall x, 0 < x -> 0 < Gamma x;
  BesselK_pos : forall v x, 0 < x -> 0 < BesselK v x;
  gammaln_spec : forall x, 0 < x -> gammaln (Fin x) = Fin (ln (Gamma x));
  gamma_spec : forall x, 0 < x -> gamma (Fin x) = Fin (Gamma x);
  kv_spec : forall v x, 0 < x -> kv (Fin v) (Fin x) = Fin (BesselK v x);
  kv_zero : forall v, kv (Fin v) (Fin 0) = PInf
}.

(** ** The density object *)

Record density : Type := {
  ndim : nat;
  eta : ndarray;
  lam : list num;
  mu : option ndarray;
  sigma : option ndarray;
  data : option ndarray
}.

Definition set_eta (s : density) (e : ndarray) : density :=
  {| ndim := ndim s; eta := e; lam := lam s;
     mu := mu s; sigma := sigma s; data := data s |}.

Definition set_lam (s : density) (l : list num) : density :=
  {| ndim := ndim s; eta := eta s; lam := l;
     mu := mu s; sigma := sigma s; data := data s |}.

Definition set_ndim (s : density) (n : nat) : density :=
  {| ndim := n; eta := eta s; lam := lam s;
     mu := mu s; sigma := sigma s; data := data s |}.

Definition set_data (s : density) (d : ndarray) : density :=
  {| ndim := ndim s; eta := eta s; lam := lam s;
     mu := mu s; sigma := sigma s; data := Some d |}.

(** Modelled from the spec: [MultiDensity.__init__] (multidensity.py) is not
    among the sources; by the spec the base container "owns [ndim], [eta],
    [lam], [data]", so the constructor stores its four arguments, [lam] as a
    one-dimensional array. *)
Definition MultiDensity_init (ndim : nat) (eta : ndarray) (lam : list num)
    (data : option ndarray) : density :=
  {| ndim := ndim; eta := eta; lam := lam;
     mu := None; sigma := None; data := data |}.

Definition with_mu_sigma (s : density) (m sg : option ndarray) : density :=
  {| ndim := ndim s; eta := eta s; lam := lam s;
     mu := m; sigma := sg; data := data s |}.

(** ** class SkStDM (skstdm.py) *)

Module SkStDM.

(** [super(SkStDM, self).__init__(ndim=ndim, eta=eta, lam=lam, data=data)],
    then [mu] and [sigma]. *)
Definition init (ndim : nat) (eta : ndarray) (lam : list num)
    (mu sigma data : option ndarray) : density :=
  with_mu_sigma (MultiDensity_init ndim eta lam data) mu sigma.

(** [self.eta = np.atleast_1d(theta[0]); self.lam = np.atleast_1d(theta[1:])].
    [theta[0]] raises on an empty vector, before anything is assigned. *)
Definition from_theta (s : density) (theta : list num) : result density :=
  match theta with
  | [] => Err IndexError
  | t0 :: rest => Ok (set_lam (set_eta s (atleast_1d (Sca t0))) rest)
  end.

(** [list(zip(np.concatenate(([4], ndim * [None])), (1 + ndim) * [None]))]. *)
Definition bounds (s : density) : list (option Z * option Z) :=
  let bound_eta := [Some 4%Z] in
  let bound_lam := repeat None (ndim s) in
  combine (bound_eta ++ bound_lam) (repeat None (1 + ndim s)).

(** [np.concatenate((np.array([10]), np.zeros(ndim)))]. *)
Definition theta_start (ndim : nat) : ndarray :=
  Vec ([Fin 10] ++ repeat (Fin 0) ndim).

(** [self.eta / (2 - self.eta) * self.lam], or [np.array(self.mu)]. *)
Definition const_mu (s : density) : result ndarray :=
  match mu s with
  | None =>
      a <- sub (int 2) (eta s) ;;
      b <- div (eta s) a ;;
      mul b (Vec (lam s))
  | Some m => Ok m
  end.

(** [(1 - 2 / eta) * np.eye(ndim)
     - 2 * eta / (eta - 2) / (eta - 4) * lam * lam[:, np.newaxis]]
    with [ndim = self.lam.size], or [np.array(self.sigma)]. *)
Definition const_sigma (s : density) : result ndarray :=
  match sigma s with
  | None =>
      let ndim := length (lam s) in
      t1 <- div (int 2) (eta s) ;;
      t2 <- sub (int 1) t1 ;;
      t3 <- mul t2 (eye ndim) ;;
      u1 <- mul (int 2) (eta s) ;;
      u2 <- sub (eta s) (int 2) ;;
      u3 <- div u1 u2 ;;
      u4 <- sub (eta s) (int 4) ;;
      u5 <- div u3 u4 ;;
      u6 <- mul u5 (Vec (lam s)) ;;
      u7 <- mul u6 (newaxis (lam s)) ;;
      sub t3 u7
  | Some m => Ok m
  end.

Section Pdf.
Context {sp : Special}.

(** The value [pdf] returns once [self.data] is set. *)
Definition pdf_value (s : density) (d : ndarray) : result ndarray :=
  let ndim := length (lam s) in
  m <- const_mu s ;;
  diff <- sub d m ;;
  sg <- const_sigma s ;;
  diff_norm <- solve sg (transpose diff) ;;
  p <- mul (transpose diff) diff_norm ;;
  let diff_sandwich := sum0 p in
  sg1 <- const_sigma s ;;
  sl <- solve sg1 (Vec (lam s)) ;;
  ls <- mul (Vec (lam s)) sl ;;
  let norm_lam := sum_all ls in
  k1 <- add (eta s) diff_sandwich ;;
  k2 <- mul k1 norm_lam ;;
  kappa <- pow k2 (flt (1 / 2)) ;;
  a1 <- add (eta s) (int ndim) ;;
  a2 <- div a1 (int 2) ;;
  a3 <- sub (int 1) a2 ;;
  e1 <- pow (int 2) a3 ;;
  b1 <- mul (flt PI) (eta s) ;;
  b2 <- pow b1 (int ndim) ;;
  sg2 <- const_sigma s ;;
  dt <- det sg2 ;;
  b3 <- mul b2 dt ;;
  e2 <- pow b3 (flt (1 / 2)) ;;
  r1 <- div e1 e2 ;;
  c1 <- add (eta s) (int ndim) ;;
  c2 <- div c1 (int 2) ;;
  bk <- binop kv c2 kappa ;;
  r2 <- mul r1 bk ;;
  d1 <- add (eta s) (int ndim) ;;
  d2 <- div d1 (int 2) ;;
  kp <- pow kappa d2 ;;
  r3 <- mul r2 kp ;;
  g1 <- div (eta s) (int 2) ;;
  r4 <- div r3 (ufunc gamma g1) ;;
  x1 <- dot (transpose diff_norm) (lam s) ;;
  r5 <- mul r4 (np_exp x1) ;;
  f1 <- div diff_sandwich (eta s) ;;
  f2 <- add (int 1) f1 ;;
  f3 <- add (eta s) (int ndim) ;;
  f4 <- div (neg f3) (int 2) ;;
  tl <- pow f2 f4 ;;
  mul r5 tl.

(** [pdf(self, data=None)]: the object after the call, and the returned
    array or the exception raised. *)
Definition pdf (s : density) (data : option ndarray)
  : density * result ndarray :=
  match data with
  | None => (s, Err NoData)
  | Some d =>
      let s' := set_data s (atleast_2d d) in
      (s', pdf_value s' (atleast_2d d))
  end.

End Pdf.

(** [scipy.stats.multivariate_normal.rvs] squeezes what NumPy's generator
    returns: every axis of length 1 is removed. *)
Definition squeeze (x : ndarray) : ndarray :=
  match x with
  | Sca a => Sca a
  | Vec [a] => Sca a
  | Vec v => Vec v
  | Mat c m =>
      match m with
      | [row] => match row with [a] => Sca a | _ => Vec row end
      | _ => if Nat.eqb c 1 then Vec (heads m) else Mat c m
      end
  end.

(** [rvs(self, size)].  The random draws are arguments: [ig] is what
    [scs.invgamma.rvs(eta / 2, scale=eta / 2, size=size)] returned, an array
    of [size] numbers, and [normal] what NumPy's generator returned inside
    [scs.multivariate_normal.rvs(cov=const_sigma(), size=size)], [size] rows
    of as many entries as [cov] has rows. *)
Definition rvs (s : density) (ig : list num) (normal : list (list num))
  : result ndarray :=
  let igrv := newaxis ig in
  cov <- const_sigma s ;;
  let mvnorm :=
    squeeze (Mat (match cov with Mat _ m => length m | _ => 1 end) normal) in
  m <- const_mu s ;;
  t1 <- mul (Vec (lam s)) igrv ;;
  t2 <- add m t1 ;;
  t3 <- pow igrv (flt (1 / 2)) ;;
  t4 <- mul t3 mvnorm ;;
  add t2 t4.

End SkStDM.

(** ** class MvSt (mvst.py) *)

Module MvSt.

(** [super(SkStDM, self).__init__(ndim=ndim, eta=eta, lam=np.zeros(ndim),
    data=data)], then [mu] and [sigma]. *)
Definition init (ndim : nat) (eta : ndarray) (mu sigma data : option ndarray)
  : density :=
  with_mu_sigma (MultiDensity_init ndim eta (repeat (Fin 0) ndim) data)
                mu sigma.

(** [self.eta = theta]. *)
Definition from_theta (s : density) (theta : ndarray) : density :=
  set_eta s theta.

(** [[(2, None)]]. *)
Definition bounds (s : density) : list (option Z * option Z) :=
  [(Some 2%Z, None)].

(** [10]. *)
Definition theta_start (ndim : nat) : ndarray := int 10.

(** [np.zeros(self.ndim)], or [np.array(self.mu)]. *)
Definition const_mu (s : density) : result ndarray :=
  match mu s with
  | None => Ok (zeros (ndim s))
  | Some m => Ok m
  end.

(** [(1 - 2 / self.eta) * np.eye(self.ndim)], or [np.array(self.sigma)]. *)
Definition const_sigma (s : density) : result ndarray :=
  match sigma s with
  | None =>
      t1 <- div (int 2) (eta s) ;;
      t2 <- sub (int 1) t1 ;;
      mul t2 (eye (ndim s))
  | Some m => Ok m
  end.

Section Pdf.
Context {sp : Special}.

(** The value [pdf] returns once [self.data] is set: [term1 * term2 * term3].
    [term2] reads [self.ndim]; [term1] and [term3] read [self.lam.size]. *)
Definition pdf_value (s : density) (d : ndarray) : result ndarray :=
  let ndim_ := length (lam s) in
  m <- const_mu s ;;
  diff <- sub d m ;;
  sg <- const_sigma s ;;
  diff_norm <- solve sg (transpose diff) ;;
  p <- mul (transpose diff) diff_norm ;;
  let diff_sandwich := sum0 p in
  b1 <- mul (flt PI) (eta s) ;;
  b2 <- pow b1 (int ndim_) ;;
  sg1 <- const_sigma s ;;
  dt <- det sg1 ;;
  b3 <- mul b2 dt ;;
  term1 <- pow b3 (flt (- (1 / 2))) ;;
  g1 <- add (eta s) (int (ndim s)) ;;
  g2 <- div g1 (int 2) ;;
  g3 <- div (eta s) (int 2) ;;
  g4 <- sub (ufunc gammaln g2) (ufunc gammaln g3) ;;
  let term2 := np_exp g4 in
  f1 <- div diff_sandwich (eta s) ;;
  f2 <- add (int 1) f1 ;;
  f3 <- add (eta s) (int ndim_) ;;
  f4 <- div (neg f3) (int 2) ;;
  term3 <- pow f2 f4 ;;
  t12 <- mul term1 term2 ;;
  mul t12 term3.

Definition pdf (s : density) (data : option ndarray)
  : density * result ndarray :=
  match data with
  | None => (s, Err NoData)
  | Some d =>
      let s' := set_data s (atleast_2d d) in
      (s', pdf_value s' (atleast_2d d))
  end.

End Pdf.

(** [rvs(self, size)], inherited from [SkStDM]: on an [MvSt] object
    [self.const_sigma()] and [self.const_mu()] are the methods of [MvSt].
    The random draws are arguments, as in [SkStDM.rvs]. *)
Definition rvs (s : density) (ig : list num) (normal : list (list num))
  : result ndarray :=
  let igrv := newaxis ig in
  cov <- const_sigma s ;;
  let mvnorm :=
    SkStDM.squeeze
      (Mat (match cov with Mat _ m => length m | _ => 1 end) normal) in
  m <- const_mu s ;;
  t1 <- mul (Vec (lam s)) igrv ;;
  t2 <- add m t1 ;;
  t3 <- pow igrv (flt (1 / 2)) ;;
  t4 <- mul t3 mvnorm ;;
  add t2 t4.

End MvSt.

(** ** An inhabitant of [Special]

    The laws of [Special] are consistent: the constant functions below
    satisfy them.  This instance only serves to run the theorems on concrete
    inputs; it is not SciPy. *)
Definition const_special : Special.
Proof.
  refine {| Gamma := fun _ => 1;
            BesselK := fun _ _ => 1;
            gammaln := fun x => match x with Fin _ => Fin 0 | _ => x end;
            gamma := fun x => match x with Fin _ => Fin 1 | _ => x end;
            kv := fun _ x =>
                    match x with
                    | Fin r => if Req_dec_T r 0 then PInf else Fin 1
                    | _ => NaN
                    end |}.
  - intros; lra.
  - intros; lra.
  - intros; now rewrite ln_1.
  - reflexivity.
  - intros v x Hx. destruct (Req_dec_T x 0); [lra | reflexivity].
  - intros v. destruct (Req_dec_T 0 0); [reflexivity | lra].
Defined.

(** * Definitions for the statements *)

(** Rows of one length. *)
Definition rows_of {A : Type} (k : nat) (m : list (list A)) : Prop :=
  Forall (fun r => length r = k) m.

(** A vector and a matrix of reals, as arrays of finite numbers. *)
Abbreviation FinV v := (map Fin v).
Abbreviation FinM m := (map (map Fin) m).

(** [u . v]. *)
Definition dotR (u v : list R) : R := fold_left Rplus (zipWith Rmult u v) 0.

(** The quadratic form [d^T Sigma^-1 d]. *)
Definition quad_form (k : nat) (Sg : list (list R)) (d : list R) : R :=
  dotR d (cramer k Sg d).

(** The centred rows [row - mu]. *)
Definition centred (D : list (list R)) (m : list R) : list (list R) :=
  map (fun r => zipWith Rminus r m) D.

(** A scalar parameter in either of its forms: a scalar, or an array of one
    element. *)
Definition lift (b : bool) (x : num) : ndarray :=
  if b then Vec [x] else Sca x.

(** [MvSt.pdf] at one row, on scalars: [e] is [eta], [nl] is
    [self.lam.size], [n] is [self.ndim], [dS] the determinant of
    [const_sigma()] and [q] the row's quadratic form. *)
Definition sym_row {sp : Special} (e : num) (nl n : nat) (dS q : R) : num :=
  let term1 :=
    npow (nmul (npow (nmul (Fin PI) e) (Fin (INR nl))) (Fin dS))
         (Fin (- (1 / 2))) in
  let term2 :=
    nexp (nsub (gammaln (ndiv (nadd e (Fin (INR n))) (Fin (INR 2))))
               (gammaln (ndiv e (Fin (INR 2))))) in
  let term3 :=
    npow (nadd (Fin (INR 1)) (ndiv (Fin q) e))
         (ndiv (nneg (nadd e (Fin (INR nl)))) (Fin (INR 2))) in
  nmul (nmul term1 term2) term3.

(** [SkStDM.pdf] at one row, on scalars: [e] is [eta], [nl] is
    [self.lam.size], [dS] the determinant of [const_sigma()], [nlam] the
    skewness norm [lam . Sigma^-1 lam], [q] the row's quadratic form and
    [lx] the row's [Sigma^-1 diff . lam]. *)
Definition skew_row {sp : Special} (e : num) (nl : nat) (dS nlam q lx : R)
  : num :=
  let kappa := npow (nmul (nadd e (Fin q)) (Fin nlam)) (Fin (1 / 2)) in
  let nu := ndiv (nadd e (Fin (INR nl))) (Fin (INR 2)) in
  let e1 := npow (Fin (INR 2)) (nsub (Fin (INR 1)) nu) in
  let e2 :=
    npow (nmul (npow (nmul (Fin PI) e) (Fin (INR nl))) (Fin dS))
         (Fin (1 / 2)) in
  let r1 := ndiv e1 e2 in
  let r2 := nmul r1 (kv nu kappa) in
  let r3 := nmul r2 (npow kappa nu) in
  let r4 := ndiv r3 (gamma (ndiv e (Fin (INR 2)))) in
  let r5 := nmul r4 (nexp (Fin lx)) in
  let tl :=
    npow (nadd (Fin (INR 1)) (ndiv (Fin q) e))
         (ndiv (nneg (nadd e (Fin (INR nl)))) (Fin (INR 2))) in
  nmul r5 tl.

(** Kronecker's delta. *)
Definition delta (i j : nat) : R := if Nat.eqb i j then 1 else 0.

(** [(1 - 2/eta) * I]. *)
Definition sym_sigma (e : R) (n : nat) : list (list R) :=
  map (fun i => map (fun j => (1 - 2 / e) * delta i j) (seq 0 n)) (seq 0 n).

(** [(1 - 2/eta) * I - 2 eta / ((eta - 2) (eta - 4)) * (lam (x) lam)]. *)
Definition skew_sigma (e : R) (l : list R) : list (list R) :=
  map (fun i =>
         map (fun j => (1 - 2 / e) * delta i j
                       - 2 * e / ((e - 2) * (e - 4)) * (nth i l 0 * nth j l 0))
             (seq 0 (length l)))
      (seq 0 (length l)).

(** [eta / (2 - eta) * lam]. *)
Definition skew_mu (e : R) (l : list R) : list R :=
  map (fun x => e / (2 - e) * x) l.

(** The documented value of the symmetric density at a row with quadratic
    form [q]: [nl] is the dimension in the power and determinant terms, [n]
    the dimension in the gamma ratio, [dS] the determinant of [Sigma]. *)
Definition student_pdf {sp : Special} (e : R) (nl n : nat) (dS q : R) : R :=
  Rpower ((PI * e) ^ nl * dS) (- (1 / 2))
  * (Gamma ((e + INR n) / 2) / Gamma (e / 2))
  * Rpower (1 + q / e) (- (e + INR nl) / 2).

(** The value of the skewed density at a row, in real arithmetic: [nl] is
    the dimension, [dS] the determinant of [Sigma], [nlam] the skewness norm
    [lam . Sigma^-1 lam], [q] the row's quadratic form and [lx] the row's
    [Sigma^-1 diff . lam]. *)
Definition skew_pdf {sp : Special} (e : R) (nl : nat) (dS nlam q lx : R) : R :=
  let kappa := Rpower ((e + q) * nlam) (1 / 2) in
  let nu := (e + INR nl) / 2 in
  Rpower 2 (1 - nu) / Rpower ((PI * e) ^ nl * dS) (1 / 2)
  * BesselK nu kappa * Rpower kappa nu / Gamma (e / 2)
  * exp lx * Rpower (1 + q / e) (- (e + INR nl) / 2).

(** The largest finite double, [(2 - 2^-52) * 2^1023]. *)
Definition dbl_max : R := (2 - / 2 ^ 52) * 2 ^ 1023.

(** The mirror image of the observation [d] through the point [m]. *)
Definition mirror (m d : list R) : list R :=
  zipWith (fun a x => 2 * a - x) m d.

(** What the densities need of a symmetric positive-definite [Sigma]: a
    positive determinant, and a quadratic form of [Sigma^-1] that is never
    negative. *)
Definition pd_inverse (k : nat) (Sg : list (list R)) : Prop :=
  0 < detR k Sg /\ forall d, length d = k -> 0 <= quad_form k Sg d.

(** [A x]. *)
Definition matvec (A : list (list R)) (x : list R) : list R :=
  map (fun row => dotR row x) A.

(** A symmetric positive-definite matrix of size [k]. *)
Definition sym_pos_def (k : nat) (A : list (list R)) : Prop :=
  length A = k /\ rows_of k A
  /\ (forall i j, nth j (nth i A []) 0 = nth i (nth j A []) 0)
  /\ (forall x, length x = k -> (exists i, nth i x 0 <> 0) ->
                0 < dotR x (matvec A x)).

(** [c * I]. *)
Definition scaled_eye (c : R) (n : nat) : list (list R) :=
  map (fun i => map (fun j => c * delta i j) (seq 0 n)) (seq 0 n).

(** A row of [rvs]: [const_mu() + lam * m + sqrt(m) * z] for the mixing
    draw [m] and the normal draw [z]. *)
Definition rvs_row (mv l : list num) (mi : num) (zi : list num) : list num :=
  zipWith nadd (zipWith nadd mv (map (fun x => nmul x mi) l))
          (map (nmul (npow mi (Fin (1 / 2)))) zi).

(** A result that is not the missing-data error. *)
Definition not_NoData {A : Type} (r : result A) : Prop := r <> Err NoData.

(** The object after a call differs from the object before in its [data]
    only. *)
Definition only_data_set (s s' : density) (d : ndarray) : Prop :=
  data s' = Some d
  /\ eta s' = eta s /\ lam s' = lam s /\ mu s' = mu s
  /\ sigma s' = sigma s /\ ndim s' = ndim s.

(** * Properties *)

(** ** Scalars *)

Lemma Rsgn_pos (x : R) : 0 < x -> Rsgn x = Gt.
Proof.
  intros H. unfold Rsgn. destruct (total_order_T x 0) as [[?|?]|?]; trivial; lra.
Qed.

Lemma Rsgn_neg (x : R) : x < 0 -> Rsgn x = Lt.
Proof.
  intros H. unfold Rsgn. destruct (total_order_T x 0) as [[?|?]|?]; trivial; lra.
Qed.

Lemma Rsgn_zero : Rsgn 0 = Eq.
Proof.
  unfold Rsgn. destruct (total_order_T 0 0) as [[?|?]|?]; trivial; lra.
Qed.

Lemma ndiv_fin (a b : R) : b <> 0 -> ndiv (Fin a) (Fin b) = Fin (a / b).
Proof.
  intros H. simpl. destruct (Req_dec_T b 0); [contradiction | reflexivity].
Qed.

Lemma Rpow_pos (a b : R) : 0 < a -> Rpow a b = Fin (Rpower a b).
Proof.
  intros H. unfold Rpow. destruct (Req_dec_T b 0) as [->|_].
  - now rewrite Rpower_O.
  - now rewrite Rsgn_pos.
Qed.

Lemma Rpow_zero_pos (b : R) : 0 < b -> Rpow 0 b = Fin 0.
Proof.
  intros H. unfold Rpow. destruct (Req_dec_T b 0); [lra|].
  now rewrite Rsgn_zero, Rsgn_pos.
Qed.

Lemma Int_part_half : Int_part (1 / 2) = 0%Z.
Proof. symmetry. apply Int_part_spec. simpl. lra. Qed.

Lemma is_int_half : is_int (1 / 2) = false.
Proof.
  unfold is_int. rewrite Int_part_half.
  destruct (Req_dec_T 0 (1 / 2)); [lra | reflexivity].
Qed.

(** The square root of a negative number is NaN. *)
Lemma Rpow_neg_half (a : R) : a < 0 -> Rpow a (1 / 2) = NaN.
Proof.
  intros H. unfold Rpow. destruct (Req_dec_T (1 / 2) 0); [lra|].
  now rewrite Rsgn_neg, is_int_half.
Qed.

Lemma INR_2_neq_0 : INR 2 <> 0.
Proof. simpl. lra. Qed.

(** NaN propagates through the arithmetic. *)
Lemma nmul_NaN_l (x : num) : nmul NaN x = NaN.
Proof. now destruct x. Qed.

Lemma ndiv_NaN_l (x : num) : ndiv NaN x = NaN.
Proof. now destruct x. Qed.

Lemma ndiv_NaN_r (x : num) : ndiv x NaN = NaN.
Proof. now destruct x. Qed.

(** Whatever [x] is, [x * inf * 0] is NaN. *)
Lemma nmul_inf_zero (x : num) : nmul (nmul x PInf) (Fin 0) = NaN.
Proof.
  destruct x as [a| | |]; simpl; trivial;
    try destruct (Rsgn a); simpl; trivial; now rewrite Rsgn_zero.
Qed.

(** ** Lists and broadcasting *)

Lemma zipWith_length {A B C : Type} (f : A -> B -> C) (u : list A)
    (v : list B) :
  length u = length v -> length (zipWith f u v) = length u.
Proof.
  revert v.
  induction u as [|a u IH]; intros [|b v] H; simpl in *; try discriminate;
    auto.
Qed.

Lemma zipWith_map {A A' B B' C : Type} (f : A' -> B' -> C) (g : A -> A')
    (h : B -> B') (u : list A) (v : list B) :
  zipWith f (map g u) (map h v) = zipWith (fun a b => f (g a) (h b)) u v.
Proof.
  revert v. induction u as [|a u IH]; intros [|b v]; simpl; trivial.
  now rewrite IH.
Qed.

Lemma map_zipWith {A B C D : Type} (g : C -> D) (f : A -> B -> C)
    (u : list A) (v : list B) :
  map g (zipWith f u v) = zipWith (fun a b => g (f a b)) u v.
Proof.
  revert v. induction u as [|a u IH]; intros [|b v]; simpl; trivial.
  now rewrite IH.
Qed.

Lemma zipWith_repeat_l {A B C : Type} (f : A -> B -> C) (a : A)
    (v : list B) :
  zipWith f (repeat a (length v)) v = map (f a) v.
Proof. induction v as [|b v IH]; simpl; trivial. now rewrite IH. Qed.

Lemma bdim_same (n : nat) : bdim n n = Some n.
Proof. unfold bdim. now rewrite Nat.eqb_refl. Qed.

Lemma bzip_same {A B C : Type} (f : A -> B -> C) (u : list A) (v : list B) :
  length u = length v -> bzip f u v = zipWith f u v.
Proof.
  destruct u as [|a [|a' u]], v as [|b [|b' v]]; simpl; intros H;
    try discriminate; reflexivity.
Qed.


Lemma rows_of_map {A B : Type} (f : A -> B) (k : nat) (m : list (list A)) :
  rows_of k m -> rows_of k (map (map f) m).
Proof.
  induction 1 as [|r m Hr _ IH]; constructor; trivial.
  now rewrite length_map.
Qed.

Lemma bzip_rows {A B C : Type} (f : A -> B -> C) (k : nat)
    (m1 : list (list A)) (m2 : list (list B)) :
  rows_of k m1 -> rows_of k m2 -> length m1 = length m2 ->
  bzip (bzip f) m1 m2 = zipWith (zipWith f) m1 m2.
Proof.
  intros H1 H2 Hl. rewrite bzip_same by trivial.
  revert m2 H2 Hl.
  induction H1 as [|r1 m1 Hr1 _ IH]; intros [|r2 m2] H2 Hl; simpl in *;
    try discriminate; trivial.
  inversion H2; subst. rewrite bzip_same by congruence.
  f_equal. apply IH; auto.
Qed.

Lemma rows_of_zipWith {A B C : Type} (f : A -> B -> C) (k : nat)
    (m1 : list (list A)) (m2 : list (list B)) :
  rows_of k m1 -> rows_of k m2 -> rows_of k (zipWith (zipWith f) m1 m2).
Proof.
  intros H1. revert m2.
  induction H1 as [|r1 m1 Hr1 _ IH]; intros [|r2 m2] H2; simpl;
    try constructor.
  - inversion H2; subst. apply zipWith_length. congruence.
  - inversion H2; subst. now apply IH.
Qed.

(** *** Columns *)

Lemma heads_map {A B : Type} (f : A -> B) (m : list (list A)) :
  heads (map (map f) m) = map f (heads m).
Proof.
  unfold heads. induction m as [|r m IH]; simpl; trivial.
  rewrite map_app. f_equal; [now destruct r | exact IH].
Qed.

Lemma tails_map {A B : Type} (f : A -> B) (m : list (list A)) :
  tails (map (map f) m) = map (map f) (tails m).
Proof.
  unfold tails. rewrite !map_map. apply map_ext. now intros [|a r].
Qed.

Lemma columns_map {A B : Type} (f : A -> B) (k : nat) (m : list (list A)) :
  columns k (map (map f) m) = map (map f) (columns k m).
Proof.
  revert m. induction k as [|k IH]; intros m; simpl; trivial.
  now rewrite heads_map, tails_map, IH.
Qed.

Lemma columns_length {A : Type} (k : nat) (m : list (list A)) :
  length (columns k m) = k.
Proof. revert m. induction k; intros; simpl; auto. Qed.

Lemma columns_cons {A : Type} (k : nat) (r : list A) (m : list (list A)) :
  length r = k -> columns k (r :: m) = zipWith cons r (columns k m).
Proof.
  revert r m. induction k as [|k IH]; intros [|a r] m H; simpl in *;
    try discriminate; trivial.
  f_equal. apply IH. now injection H.
Qed.

Lemma heads_zipWith_cons {A : Type} (r : list A) (m : list (list A)) :
  length r = length m -> heads (zipWith cons r m) = r.
Proof.
  revert m. induction r as [|a r IH]; intros [|x m] H; simpl in *;
    try discriminate; trivial.
  f_equal. apply IH. now injection H.
Qed.

Lemma tails_zipWith_cons {A : Type} (r : list A) (m : list (list A)) :
  length r = length m -> tails (zipWith cons r m) = m.
Proof.
  revert m. induction r as [|a r IH]; intros [|x m] H; simpl in *;
    try discriminate; trivial.
  f_equal. apply IH. now injection H.
Qed.

(** Transposing twice gives the matrix back. *)
Lemma columns_columns {A : Type} (k : nat) (m : list (list A)) :
  rows_of k m -> columns (length m) (columns k m) = m.
Proof.
  induction 1 as [|r m Hr _ IH]; simpl; trivial.
  rewrite columns_cons by trivial.
  rewrite heads_zipWith_cons, tails_zipWith_cons
    by now rewrite columns_length.
  now rewrite IH.
Qed.

Lemma columns_rows_of {A : Type} (k : nat) (m : list (list A)) :
  rows_of k m -> rows_of (length m) (columns k m).
Proof.
  induction 1 as [|r m Hr Hm IH]; simpl.
  - clear. induction k; simpl; constructor; auto.
  - rewrite columns_cons by trivial.
    assert (Hl : length r = length (columns k m))
      by now rewrite columns_length.
    clear Hr Hm. revert r Hl.
    induction IH as [|c cs Hc _ IHc]; intros [|a r] Hl; simpl in *;
      try discriminate; constructor.
    + simpl. now rewrite Hc.
    + apply IHc. now injection Hl.
Qed.

Lemma zipWith_zipWith_cons {A B C : Type} (f : A -> B -> C)
    (r1 : list A) (r2 : list B) (c1 : list (list A)) (c2 : list (list B)) :
  zipWith (zipWith f) (zipWith cons r1 c1) (zipWith cons r2 c2)
  = zipWith cons (zipWith f r1 r2) (zipWith (zipWith f) c1 c2).
Proof.
  revert r2 c1 c2.
  induction r1 as [|a1 r1 IH]; intros [|a2 r2] [|x1 c1] [|x2 c2]; simpl;
    trivial.
  now rewrite IH.
Qed.

Lemma columns_nil {A : Type} (k : nat) :
  columns k (@nil (list A)) = repeat [] k.
Proof. induction k; simpl; congruence. Qed.

Lemma columns_zipWith {A B C : Type} (f : A -> B -> C) (k : nat)
    (m1 : list (list A)) (m2 : list (list B)) :
  rows_of k m1 -> rows_of k m2 -> length m1 = length m2 ->
  columns k (zipWith (zipWith f) m1 m2)
  = zipWith (zipWith f) (columns k m1) (columns k m2).
Proof.
  intros H1. revert m2.
  induction H1 as [|r1 m1 Hr1 _ IH]; intros [|r2 m2] H2 Hl; simpl in *;
    try discriminate.
  - rewrite !columns_nil. clear. induction k; simpl; congruence.
  - inversion H2; subst.
    rewrite !columns_cons by (trivial; apply zipWith_length; congruence).
    rewrite zipWith_zipWith_cons. f_equal. apply IH; auto.
Qed.

(** Summing the columns of a transposed matrix sums its rows. *)
Lemma fold_columns {A B : Type} (f : A -> B -> A) (k : nat)
    (m : list (list B)) (acc : list A) :
  rows_of k m -> length acc = length m ->
  fold_left (zipWith f) (columns k m) acc
  = zipWith (fun a row => fold_left f row a) acc m.
Proof.
  revert m acc. induction k as [|k IH]; intros m acc Hm Hl; simpl.
  - revert acc Hl. induction Hm as [|r m Hr _ IHm]; intros [|a acc] Hl;
      simpl in *; try discriminate; trivial.
    destruct r; try discriminate. simpl. f_equal. apply IHm. now injection Hl.
  - rewrite IH.
    + clear IH. revert acc Hl.
      induction Hm as [|r m Hr _ IHm]; intros [|a acc] Hl; simpl in *;
        try discriminate; trivial.
      destruct r as [|b r]; try discriminate. simpl. f_equal.
      apply IHm. now injection Hl.
    + clear - Hm. induction Hm as [|r m Hr _ IHm]; simpl; constructor; auto.
      destruct r; simpl in *; try discriminate. now injection Hr.
    + rewrite zipWith_length; unfold tails.
      * now rewrite length_map.
      * rewrite Hl. clear - Hm.
        induction Hm as [|r m Hr _ IHm]; simpl; trivial.
        destruct r; simpl in *; try discriminate. now rewrite IHm.
Qed.

(** ** Arrays of finite numbers *)


Lemma finite_FinV (v : list R) : forallb is_fin (FinV v) = true.
Proof. induction v; simpl; auto. Qed.

Lemma finite_FinM (m : list (list R)) :
  forallb (forallb is_fin) (FinM m) = true.
Proof. induction m; simpl; auto. now rewrite finite_FinV. Qed.

Lemma to_R_FinV (v : list R) : map to_R (FinV v) = v.
Proof. rewrite map_map. simpl. apply map_id. Qed.

Lemma to_R_FinM (m : list (list R)) : map (map to_R) (FinM m) = m.
Proof.
  rewrite map_map. rewrite <- (map_id m) at 2. apply map_ext.
  intros r. apply to_R_FinV.
Qed.

Lemma nsum_fin_acc (l : list R) (a : R) :
  fold_left nadd (FinV l) (Fin a) = Fin (fold_left Rplus l a).
Proof. revert a. induction l as [|x l IH]; intros a; simpl; auto. Qed.

Lemma nsum_fin (l : list R) : nsum (FinV l) = Fin (fold_left Rplus l 0).
Proof. apply nsum_fin_acc. Qed.

Lemma binop_mat_vec (f : num -> num -> num) (k : nat)
    (m : list (list num)) (v : list num) :
  rows_of k m -> length v = k ->
  binop f (Mat k m) (Vec v) = Ok (Mat k (map (fun r => zipWith f r v) m)).
Proof.
  intros Hm Hv. simpl. rewrite Hv, bdim_same. do 2 f_equal.
  apply map_ext_in. intros r Hr. apply bzip_same.
  unfold rows_of in Hm. rewrite Forall_forall in Hm.
  rewrite (Hm r Hr). now symmetry.
Qed.

Lemma binop_mat_mat (f : num -> num -> num) (c : nat)
    (m1 m2 : list (list num)) :
  rows_of c m1 -> rows_of c m2 -> length m1 = length m2 ->
  binop f (Mat c m1) (Mat c m2) = Ok (Mat c (zipWith (zipWith f) m1 m2)).
Proof.
  intros H1 H2 Hl. simpl. rewrite Hl, !bdim_same.
  now rewrite (bzip_rows f c).
Qed.

Lemma cramer_length (n : nat) (A : list (list R)) (b : list R) :
  length (cramer n A b) = n.
Proof. unfold cramer. now rewrite length_map, length_seq. Qed.

Lemma det_fin (k : nat) (A : list (list R)) :
  length A = k -> det (Mat k (FinM A)) = Ok (Sca (Fin (detR k A))).
Proof.
  intros H. unfold det. simpl finite. rewrite finite_FinM.
  now rewrite length_map, H, Nat.eqb_refl, to_R_FinM.
Qed.

Lemma solve_vec (k : nat) (A : list (list R)) (b : list R) :
  length A = k -> length b = k -> detR k A <> 0 ->
  solve (Mat k (FinM A)) (Vec (FinV b)) = Ok (Vec (FinV (cramer k A b))).
Proof.
  intros HA Hb Hd. unfold solve. simpl finite.
  rewrite finite_FinM, finite_FinV. simpl.
  rewrite !length_map, HA, Hb, Nat.eqb_refl, to_R_FinM, to_R_FinV.
  now destruct (Req_dec_T (detR k A) 0).
Qed.

Lemma solve_mat (k T : nat) (A B : list (list R)) :
  length A = k -> length B = k -> detR k A <> 0 ->
  solve (Mat k (FinM A)) (Mat T (FinM B))
  = Ok (Mat T (FinM (columns k (map (cramer k A) (columns T B))))).
Proof.
  intros HA HB Hd. unfold solve. simpl finite.
  rewrite !finite_FinM. simpl.
  rewrite !length_map, HA, HB, Nat.eqb_refl, !to_R_FinM.
  now destruct (Req_dec_T (detR k A) 0).
Qed.

(** ** The quadratic form *)


(** Cramer's rule solves the system, in two dimensions. *)
Lemma cramer_solves_2 (a b c d x y : R) :
  a * d - b * c <> 0 ->
  exists u v,
    cramer 2 [[a; b]; [c; d]] [x; y] = [u; v]
    /\ a * u + b * v = x /\ c * u + d * v = y.
Proof.
  intros H. eexists. eexists. split; [reflexivity|].
  simpl. split; field; intros Hc; apply H; lra.
Qed.

Lemma centred_rows_of (k : nat) (D : list (list R)) (m : list R) :
  rows_of k D -> length m = k -> rows_of k (centred D m).
Proof.
  intros HD Hm. unfold centred.
  induction HD as [|r D Hr _ IH]; simpl; constructor; trivial.
  rewrite zipWith_length; congruence.
Qed.

Lemma zipWith_map_r {A B C : Type} (f : A -> B -> C) (h : A -> B)
    (u : list A) :
  zipWith f u (map h u) = map (fun a => f a (h a)) u.
Proof. induction u as [|a u IH]; simpl; trivial. now rewrite IH. Qed.

Lemma rows_of_cramer (k : nat) (Sg : list (list R)) (D : list (list R)) :
  rows_of k (map (cramer k Sg) D).
Proof.
  induction D; simpl; constructor; trivial. apply cramer_length.
Qed.

Lemma zipWith_ext {A B C : Type} (f g : A -> B -> C) (u : list A)
    (v : list B) :
  (forall a b, f a b = g a b) -> zipWith f u v = zipWith g u v.
Proof.
  intros H. revert v. induction u as [|a u IH]; intros [|b v]; simpl; trivial.
  now rewrite H, IH.
Qed.

Lemma nmul_FinV (u v : list R) :
  zipWith nmul (FinV u) (FinV v) = FinV (zipWith Rmult u v).
Proof. now rewrite zipWith_map, map_zipWith. Qed.

Lemma nmul_FinM (m1 m2 : list (list R)) :
  zipWith (zipWith nmul) (FinM m1) (FinM m2)
  = FinM (zipWith (zipWith Rmult) m1 m2).
Proof.
  rewrite zipWith_map, map_zipWith. apply zipWith_ext.
  intros a b. apply nmul_FinV.
Qed.

Section Sandwich.
Variables (k : nat) (D Sg : list (list R)) (m : list R).
Hypothesis HD : rows_of k D.
Hypothesis Hm : length m = k.
Hypothesis HSg : length Sg = k.
Hypothesis Hdet : detR k Sg <> 0.

(** [diff = self.data - self.const_mu()]. *)
Lemma diff_eq :
  sub (Mat k (FinM D)) (Vec (FinV m)) = Ok (Mat k (FinM (centred D m))).
Proof.
  unfold sub. rewrite (binop_mat_vec nsub k).
  - do 2 f_equal. unfold centred. rewrite !map_map. apply map_ext.
    intros r. now rewrite zipWith_map, map_zipWith.
  - now apply rows_of_map.
  - now rewrite length_map.
Qed.

(** [diff.T]. *)
Lemma diffT_eq :
  transpose (Mat k (FinM (centred D m)))
  = Mat (length D) (FinM (columns k (centred D m))).
Proof.
  simpl. rewrite columns_map. f_equal.
  unfold centred. now rewrite !length_map.
Qed.

(** [diff_norm = scl.solve(self.const_sigma(), diff.T)]. *)
Lemma diff_norm_eq :
  solve (Mat k (FinM Sg)) (Mat (length D) (FinM (columns k (centred D m))))
  = Ok (Mat (length D)
          (FinM (columns k (map (cramer k Sg) (centred D m))))).
Proof.
  rewrite solve_mat; trivial; [|apply columns_length].
  replace (length D) with (length (centred D m))
    by (unfold centred; now rewrite length_map).
  now rewrite columns_columns by now apply centred_rows_of.
Qed.

(** [diff_sandwich = (diff.T * diff_norm).sum(0)]: one quadratic form per
    row. *)
Lemma diff_sandwich_eq :
  exists p,
    mul (Mat (length D) (FinM (columns k (centred D m))))
        (Mat (length D)
           (FinM (columns k (map (cramer k Sg) (centred D m))))) = Ok p
    /\ sum0 p = Vec (FinV (map (quad_form k Sg) (centred D m))).
Proof.
  pose proof (centred_rows_of k D m HD Hm) as Hc.
  assert (Hl : length (centred D m) = length D)
    by (unfold centred; now rewrite length_map).
  set (C := map (cramer k Sg) (centred D m)).
  assert (HC : rows_of k C) by apply rows_of_cramer.
  assert (HlC : length C = length D) by (unfold C; now rewrite length_map).
  set (P := zipWith (zipWith Rmult) (centred D m) C).
  assert (HP : rows_of k P) by now apply rows_of_zipWith.
  assert (HlP : length P = length D)
    by (unfold P; rewrite zipWith_length; congruence).
  unfold mul. rewrite (binop_mat_mat nmul (length D)).
  - eexists. split; [reflexivity|]. simpl. f_equal.
    rewrite nmul_FinM, <- columns_zipWith by (trivial; congruence).
    fold P. rewrite <- columns_map, fold_columns.
    + rewrite <- HlP, <- (length_map (map Fin) P), zipWith_repeat_l.
      unfold P, C. rewrite zipWith_map_r, !map_map.
      apply map_ext. intros d. apply nsum_fin.
    + now apply rows_of_map.
    + now rewrite repeat_length, length_map.
  - rewrite <- Hl. now apply rows_of_map, columns_rows_of.
  - rewrite <- HlC. now apply rows_of_map, columns_rows_of.
  - now rewrite !length_map, !columns_length.
Qed.

End Sandwich.

(** ** Scalars in either form

    A parameter such as [eta] is a scalar (as the constructor's default
    [10.]) or an array of one element (as [SkStDM.from_theta] stores it).
    Both broadcast alike. *)

Section Lift.
Variable f : num -> num -> num.

Lemma binop_lift_lift (b : bool) (x y : num) :
  binop f (lift b x) (lift b y) = Ok (lift b (f x y)).
Proof. now destruct b. Qed.

Lemma binop_lift_sca (b : bool) (x y : num) :
  binop f (lift b x) (Sca y) = Ok (lift b (f x y)).
Proof. now destruct b. Qed.

Lemma binop_sca_lift (b : bool) (x y : num) :
  binop f (Sca x) (lift b y) = Ok (lift b (f x y)).
Proof. now destruct b. Qed.

Lemma bdim_1_l (n : nat) : bdim 1 n = Some n.
Proof. unfold bdim. destruct n as [|[|n]]; reflexivity. Qed.

Lemma bdim_1_r (n : nat) : bdim n 1 = Some n.
Proof. unfold bdim. destruct n as [|[|n]]; reflexivity. Qed.

Lemma bzip_1_r {A B C : Type} (g : A -> B -> C) (u : list A) (y : B) :
  bzip g u [y] = map (fun a => g a y) u.
Proof. now destruct u as [|a [|a' u]]. Qed.

Lemma binop_lift_vec (b : bool) (x : num) (v : list num) :
  binop f (lift b x) (Vec v) = Ok (Vec (map (f x) v)).
Proof. destruct b; simpl; trivial. now rewrite bdim_1_l. Qed.

Lemma binop_vec_lift (b : bool) (v : list num) (y : num) :
  binop f (Vec v) (lift b y) = Ok (Vec (map (fun a => f a y) v)).
Proof.
  destruct b; simpl; trivial. now rewrite bdim_1_r, bzip_1_r.
Qed.

Lemma binop_lift_mat (b : bool) (x : num) (c : nat) (m : list (list num)) :
  binop f (lift b x) (Mat c m) = Ok (Mat c (map (map (f x)) m)).
Proof. destruct b; simpl; trivial. now rewrite bdim_1_l. Qed.

Lemma binop_vec_vec {A : Type} (g h : A -> num) (L : list A) :
  binop f (Vec (map g L)) (Vec (map h L))
  = Ok (Vec (map (fun d => f (g d) (h d)) L)).
Proof.
  simpl. rewrite !length_map, bdim_same.
  rewrite bzip_same by now rewrite !length_map.
  do 2 f_equal. induction L; simpl; congruence.
Qed.

End Lift.

Lemma ufunc_lift (g : num -> num) (b : bool) (x : num) :
  ufunc g (lift b x) = lift b (g x).
Proof. now destruct b. Qed.

Lemma ufunc_vec_map {A : Type} (g : num -> num) (h : A -> num) (L : list A) :
  ufunc g (Vec (map h L)) = Vec (map (fun d => g (h d)) L).
Proof. simpl. now rewrite map_map. Qed.

Lemma binop_sca_sca (f : num -> num -> num) (x y : num) :
  binop f (Sca x) (Sca y) = Ok (Sca (f x y)).
Proof. reflexivity. Qed.

Lemma binop_sca_vec_map {A : Type} (f : num -> num -> num) (x : num)
    (h : A -> num) (L : list A) :
  binop f (Sca x) (Vec (map h L)) = Ok (Vec (map (fun d => f x (h d)) L)).
Proof. simpl. now rewrite map_map. Qed.

Lemma binop_lift_vec_map {A : Type} (f : num -> num -> num) (b : bool)
    (x : num) (h : A -> num) (L : list A) :
  binop f (lift b x) (Vec (map h L)) = Ok (Vec (map (fun d => f x (h d)) L)).
Proof. now rewrite binop_lift_vec, map_map. Qed.

Lemma binop_vec_map_lift {A : Type} (f : num -> num -> num) (b : bool)
    (y : num) (h : A -> num) (L : list A) :
  binop f (Vec (map h L)) (lift b y) = Ok (Vec (map (fun d => f (h d) y) L)).
Proof. now rewrite binop_vec_lift, map_map. Qed.

Lemma binop_vec_map_sca {A : Type} (f : num -> num -> num)
    (y : num) (h : A -> num) (L : list A) :
  binop f (Vec (map h L)) (Sca y) = Ok (Vec (map (fun d => f (h d) y) L)).
Proof. simpl. now rewrite map_map. Qed.

(** One step of a broadcast computation whose scalars are in either form and
    whose arrays are maps over the rows. *)
Ltac np_step :=
  first
    [ rewrite binop_lift_lift
    | rewrite binop_lift_sca
    | rewrite binop_sca_lift
    | rewrite binop_sca_sca
    | rewrite binop_vec_vec
    | rewrite binop_lift_vec_map
    | rewrite binop_vec_map_lift
    | rewrite binop_sca_vec_map
    | rewrite binop_vec_map_sca
    | rewrite ufunc_lift
    | rewrite ufunc_vec_map ];
  cbn [bind].

Ltac np_steps :=
  unfold add, sub, mul, div, pow, neg, np_exp, int, flt; repeat np_step.

(** ** The symmetric density *)


Section MvSt_rows.
Context {sp : Special}.
Variables (s : density) (b : bool) (e : R).
Variables (k : nat) (D Sg : list (list R)) (m : list R).
Hypothesis Heta : eta s = lift b (Fin e).
Hypothesis Hmu : MvSt.const_mu s = Ok (Vec (FinV m)).
Hypothesis Hsg : MvSt.const_sigma s = Ok (Mat k (FinM Sg)).
Hypothesis HD : rows_of k D.
Hypothesis Hm : length m = k.
Hypothesis HSg : length Sg = k.
Hypothesis Hdet : detR k Sg <> 0.

(** On finite data of the right shape and a regular [Sigma], [MvSt.pdf]
    returns one value per row. *)
Lemma MvSt_pdf_rows :
  MvSt.pdf_value s (Mat k (FinM D))
  = Ok (Vec (map (fun d => sym_row (Fin e) (length (lam s)) (ndim s)
                             (detR k Sg) (quad_form k Sg d))
                 (centred D m))).
Proof.
  unfold MvSt.pdf_value. rewrite Hmu, Hsg, Heta. cbn [bind].
  rewrite (diff_eq k D m HD Hm). cbn [bind].
  rewrite diffT_eq, (diff_norm_eq k D Sg m HD Hm HSg Hdet). cbn [bind].
  destruct (diff_sandwich_eq k D Sg m HD Hm) as (p & Hp & Hs).
  rewrite Hp. cbn [bind]. rewrite Hs, (det_fin k Sg HSg), map_map.
  np_steps. reflexivity.
Qed.

End MvSt_rows.

(** ** The skewed density *)


Lemma binop_vec_same (f : num -> num -> num) (u v : list num) :
  length u = length v -> binop f (Vec u) (Vec v) = Ok (Vec (zipWith f u v)).
Proof.
  intros H. simpl. now rewrite H, bdim_same, bzip_same.
Qed.

Section SkStDM_rows.
Context {sp : Special}.
Variables (s : density) (b : bool) (e : R).
Variables (k : nat) (D Sg : list (list R)) (m l : list R).
Hypothesis Heta : eta s = lift b (Fin e).
Hypothesis Hlam : lam s = FinV l.
Hypothesis Hl : length l = k.
Hypothesis Hmu : SkStDM.const_mu s = Ok (Vec (FinV m)).
Hypothesis Hsg : SkStDM.const_sigma s = Ok (Mat k (FinM Sg)).
Hypothesis HD : rows_of k D.
Hypothesis Hm : length m = k.
Hypothesis HSg : length Sg = k.
Hypothesis Hdet : detR k Sg <> 0.

(** [diff_norm.T.dot(self.lam)]. *)
Lemma dot_diff_norm :
  dot (transpose
         (Mat (length D)
            (FinM (columns k (map (cramer k Sg) (centred D m))))))
      (FinV l)
  = Ok (Vec (map (fun d => Fin (dotR (cramer k Sg d) l)) (centred D m))).
Proof.
  assert (HlC : length (map (cramer k Sg) (centred D m)) = length D)
    by (unfold centred; now rewrite !length_map).
  simpl. rewrite !length_map, columns_length, Hl, Nat.eqb_refl.
  rewrite columns_map, <- HlC, columns_columns by apply rows_of_cramer.
  rewrite !map_map. do 2 f_equal. apply map_ext. intros d.
  now rewrite nmul_FinV, nsum_fin.
Qed.

(** On finite data of the right shape and a regular [Sigma], [SkStDM.pdf]
    returns one value per row. *)
Lemma SkStDM_pdf_rows :
  SkStDM.pdf_value s (Mat k (FinM D))
  = Ok (Vec (map (fun d => skew_row (Fin e) k (detR k Sg)
                             (dotR l (cramer k Sg l))
                             (quad_form k Sg d)
                             (dotR (cramer k Sg d) l))
                 (centred D m))).
Proof.
  unfold SkStDM.pdf_value. rewrite Hmu, Hsg, Heta, Hlam. cbn [bind].
  rewrite (diff_eq k D m HD Hm). cbn [bind].
  rewrite diffT_eq, (diff_norm_eq k D Sg m HD Hm HSg Hdet). cbn [bind].
  destruct (diff_sandwich_eq k D Sg m HD Hm) as (p & Hp & Hs).
  rewrite Hp. cbn [bind]. rewrite Hs, (det_fin k Sg HSg), map_map.
  rewrite (solve_vec k Sg l HSg Hl Hdet). cbn [bind].
  unfold mul at 1. rewrite binop_vec_same
    by now rewrite !length_map, cramer_length.
  cbn [bind sum_all]. rewrite nmul_FinV, nsum_fin.
  rewrite dot_diff_norm. cbn [bind]. rewrite length_map, Hl.
  np_steps. reflexivity.
Qed.

End SkStDM_rows.

(** ** The derived location and scale *)


Lemma list_as_seq (l : list R) :
  l = map (fun i => nth i l 0) (seq 0 (length l)).
Proof.
  apply (nth_ext _ _ 0 (nth 0 l 0)).
  - now rewrite length_map, length_seq.
  - intros n Hn.
    rewrite (map_nth (fun i => nth i l 0) (seq 0 (length l)) 0%nat n).
    now rewrite seq_nth.
Qed.

Lemma zipWith_map_same {A B C D : Type} (f : B -> C -> D) (g : A -> B)
    (h : A -> C) (L : list A) :
  zipWith f (map g L) (map h L) = map (fun d => f (g d) (h d)) L.
Proof. induction L; simpl; congruence. Qed.

Lemma binop_vec_newaxis (f : num -> num -> num) (u v : list num) :
  binop f (Vec u) (newaxis v)
  = Ok (Mat (length u) (map (fun a => map (fun x => f x a) u) v)).
Proof.
  unfold newaxis. simpl. rewrite bdim_1_r, map_map. do 2 f_equal.
  apply map_ext. intros a. apply bzip_1_r.
Qed.

Lemma eye_rows_of (n : nat) : rows_of n (eye_rows n).
Proof.
  unfold rows_of, eye_rows. rewrite Forall_map, Forall_forall.
  intros i _. now rewrite length_map, length_seq.
Qed.

Lemma eye_rows_length (n : nat) : length (eye_rows n) = n.
Proof. unfold eye_rows. now rewrite length_map, length_seq. Qed.

Lemma map_as_seq {B : Type} (f : R -> B) (l : list R) :
  map f l = map (fun i => f (nth i l 0)) (seq 0 (length l)).
Proof. rewrite (list_as_seq l) at 1. now rewrite map_map. Qed.

Section Constants.
Variables (s : density) (b : bool) (e : R) (l : list R).
Hypothesis Heta : eta s = lift b (Fin e).
Hypothesis Hlam : lam s = FinV l.

Lemma SkStDM_const_mu_derived :
  mu s = None -> e <> 2 ->
  SkStDM.const_mu s = Ok (Vec (FinV (skew_mu e l))).
Proof.
  intros Hmu He. unfold SkStDM.const_mu. rewrite Hmu, Heta, Hlam.
  np_steps. cbn [nsub]. rewrite ndiv_fin by (simpl; lra).
  do 2 f_equal. unfold skew_mu. rewrite map_map. apply map_ext.
  intros x. simpl. reflexivity.
Qed.

Lemma SkStDM_const_sigma_derived :
  sigma s = None -> e <> 0 -> e <> 2 -> e <> 4 ->
  SkStDM.const_sigma s = Ok (Mat (length l) (FinM (skew_sigma e l))).
Proof.
  intros Hsg H0 H2 H4. unfold SkStDM.const_sigma.
  rewrite Hsg, Heta, Hlam, length_map.
  unfold add, sub, mul, div, pow, int, flt, eye.
  repeat np_step. rewrite binop_lift_mat. cbn [bind].
  repeat np_step. rewrite binop_vec_newaxis. cbn [bind].
  rewrite length_map.
  assert (Hn2 : e - INR 2 <> 0) by (simpl; lra).
  assert (Hn4 : e - INR 4 <> 0) by (simpl; lra).
  cbn [nmul nsub]. rewrite !ndiv_fin by trivial. cbn [nsub].
  rewrite (binop_mat_mat nsub (length l)).
  - do 2 f_equal. unfold skew_sigma, eye_rows.
    rewrite !map_map, (map_as_seq _ l), zipWith_map_same.
    apply map_ext. intros i.
    rewrite !map_map, (map_as_seq _ l), zipWith_map_same.
    apply map_ext. intros j. unfold delta.
    destruct (Nat.eqb i j); cbn [nmul nsub]; f_equal; simpl; field;
      repeat split; intro Hc;
      solve [apply H0; lra | apply H2; lra | apply H4; lra].
  - apply rows_of_map, eye_rows_of.
  - unfold rows_of. rewrite Forall_map, Forall_forall.
    intros a _. now rewrite !length_map.
  - now rewrite !length_map, eye_rows_length.
Qed.

Lemma MvSt_const_mu_derived :
  mu s = None -> MvSt.const_mu s = Ok (Vec (FinV (repeat 0 (ndim s)))).
Proof.
  intros Hmu. unfold MvSt.const_mu, zeros. now rewrite Hmu, map_repeat.
Qed.

Lemma MvSt_const_sigma_derived :
  sigma s = None -> e <> 0 ->
  MvSt.const_sigma s = Ok (Mat (ndim s) (FinM (sym_sigma e (ndim s)))).
Proof.
  intros Hsg H0. unfold MvSt.const_sigma. rewrite Hsg, Heta.
  unfold add, sub, mul, div, pow, int, flt, eye.
  repeat np_step. rewrite binop_lift_mat. cbn [bind].
  rewrite ndiv_fin by trivial. cbn [nsub].
  do 2 f_equal. unfold sym_sigma, eye_rows.
  rewrite !map_map. apply map_ext. intros i.
  rewrite !map_map. apply map_ext. intros j. unfold delta.
  destruct (Nat.eqb i j); cbn [nmul]; f_equal; simpl; field; lra.
Qed.

End Constants.

(** ** The values at one row *)


Lemma exp_ln_diff (a b : R) :
  0 < a -> 0 < b -> exp (ln a - ln b) = a / b.
Proof.
  intros Ha Hb. unfold Rminus, Rdiv.
  rewrite exp_plus, exp_Ropp, !exp_ln; trivial.
Qed.

Lemma Rpower_pos (x y : R) : 0 < Rpower x y.
Proof. apply exp_pos. Qed.

Lemma INR_2 : INR 2 = 2.
Proof. simpl. lra. Qed.

Lemma pi_eta_pos (e : R) (n : nat) : 0 < e -> 0 < (PI * e) ^ n.
Proof.
  intros He. apply pow_lt, Rmult_lt_0_compat; [apply PI_RGT_0 | trivial].
Qed.

Section Rows.
Context {sp : Special}.
Variables (e dS q : R) (nl n : nat).
Hypothesis He : 0 < e.

Lemma half_dim_pos (j : nat) : 0 < (e + INR j) / INR 2.
Proof. rewrite INR_2. pose proof (pos_INR j). lra. Qed.

Lemma pi_eta_power : npow (nmul (Fin PI) (Fin e)) (Fin (INR nl))
                     = Fin ((PI * e) ^ nl).
Proof.
  cbn [nmul npow]. rewrite Rpow_pos, Rpower_pow; trivial;
    apply Rmult_lt_0_compat; trivial; apply PI_RGT_0.
Qed.

Lemma tail_power :
  0 <= q ->
  npow (nadd (Fin (INR 1)) (ndiv (Fin q) (Fin e)))
       (ndiv (nneg (nadd (Fin e) (Fin (INR nl)))) (Fin (INR 2)))
  = Fin (Rpower (1 + q / e) (- (e + INR nl) / 2)).
Proof.
  intros Hq. cbn [nadd nneg].
  rewrite !ndiv_fin by (first [apply INR_2_neq_0 | lra]).
  cbn [nadd npow]. rewrite Rpow_pos.
  - now rewrite INR_2.
  - simpl INR. apply Rplus_lt_le_0_compat; [lra|].
    apply Rmult_le_pos; trivial. left. now apply Rinv_0_lt_compat.
Qed.

(** The symmetric value is the documented formula when [Sigma] has a
    positive determinant and the quadratic form is not negative. *)
Lemma sym_row_fin :
  0 < dS -> 0 <= q ->
  sym_row (Fin e) nl n dS q = Fin (student_pdf e nl n dS q).
Proof.
  intros HdS Hq. unfold sym_row. rewrite pi_eta_power, tail_power by trivial.
  cbn [nmul nadd npow].
  rewrite Rpow_pos
    by (apply Rmult_lt_0_compat; trivial; now apply pi_eta_pos).
  rewrite !ndiv_fin by apply INR_2_neq_0.
  rewrite (gammaln_spec _ (half_dim_pos n)).
  assert (H0 : 0 < e / INR 2) by (rewrite INR_2; lra).
  rewrite (gammaln_spec _ H0). cbn [nsub nexp nmul].
  rewrite exp_ln_diff by (apply Gamma_pos; trivial; apply half_dim_pos).
  unfold student_pdf. now rewrite INR_2.
Qed.

Lemma student_pdf_pos : 0 < student_pdf e nl n dS q.
Proof.
  unfold student_pdf.
  assert (H0 : 0 < e / 2) by lra.
  pose proof (half_dim_pos n) as Hn. rewrite INR_2 in Hn.
  repeat apply Rmult_lt_0_compat; try apply Rpower_pos.
  - now apply Gamma_pos.
  - apply Rinv_0_lt_compat. now apply Gamma_pos.
Qed.

(** With a zero skewness norm the Bessel term is [inf] and the power of
    [kappa] is 0: the skewed value is NaN. *)
Lemma skew_row_zero_norm (lx : R) : skew_row (Fin e) nl dS 0 q lx = NaN.
Proof.
  unfold skew_row. cbn [nadd nmul]. rewrite Rmult_0_r. cbn [npow].
  rewrite Rpow_zero_pos by lra.
  rewrite !ndiv_fin by apply INR_2_neq_0.
  rewrite kv_zero. cbn [npow]. rewrite Rpow_zero_pos by apply half_dim_pos.
  now rewrite nmul_inf_zero, ndiv_NaN_l, !nmul_NaN_l.
Qed.

(** With a negative determinant the square root is NaN, and so is the
    skewed value. *)
Lemma skew_row_neg_det (nlam lx : R) :
  dS < 0 -> skew_row (Fin e) nl dS nlam q lx = NaN.
Proof.
  intros HdS. unfold skew_row. rewrite pi_eta_power. cbn [nmul npow].
  rewrite (Rpow_neg_half ((PI * e) ^ nl * dS)).
  - now rewrite ndiv_NaN_r, !nmul_NaN_l.
  - pose proof (pi_eta_pos e nl He). nra.
Qed.

(** With [Sigma] of positive determinant, a positive skewness norm and a
    quadratic form that is not negative, the skewed value is a positive
    real. *)
Lemma skew_row_pos (nlam lx : R) :
  0 < dS -> 0 < nlam -> 0 <= q ->
  exists v, skew_row (Fin e) nl dS nlam q lx = Fin v /\ 0 < v.
Proof.
  intros HdS Hnl Hq. unfold skew_row.
  rewrite pi_eta_power, tail_power by trivial.
  cbn [nadd nmul npow].
  assert (Hk : 0 < (e + q) * nlam) by (apply Rmult_lt_0_compat; lra).
  rewrite (Rpow_pos _ _ Hk).
  rewrite !ndiv_fin by apply INR_2_neq_0. cbn [nsub npow].
  rewrite (Rpow_pos (INR 2)) by (rewrite INR_2; lra).
  rewrite (Rpow_pos ((PI * e) ^ nl * dS))
    by (apply Rmult_lt_0_compat; trivial; now apply pi_eta_pos).
  rewrite ndiv_fin by (apply Rgt_not_eq, Rpower_pos).
  rewrite kv_spec by apply Rpower_pos. cbn [nmul npow].
  rewrite Rpow_pos by apply Rpower_pos.
  assert (H0 : 0 < e / INR 2) by (rewrite INR_2; lra).
  rewrite (gamma_spec _ H0). cbn [nmul].
  rewrite ndiv_fin by (apply Rgt_not_eq; now apply Gamma_pos).
  cbn [nexp nmul]. eexists. split; [reflexivity|].
  repeat apply Rmult_lt_0_compat;
    try apply Rpower_pos; try apply exp_pos;
    try (apply Rinv_0_lt_compat; try apply Rpower_pos; now apply Gamma_pos).
  apply BesselK_pos, Rpower_pos.
Qed.

End Rows.

(** The skewed value is the real number [skew_pdf] when [Sigma] has a
    positive determinant, the skewness norm is positive and the quadratic
    form is not negative. *)
Lemma skew_row_fin {sp : Special} (e dS q : R) (nl : nat) (nlam lx : R) :
  0 < e -> 0 < dS -> 0 < nlam -> 0 <= q ->
  skew_row (Fin e) nl dS nlam q lx = Fin (skew_pdf e nl dS nlam q lx).
Proof.
  intros He HdS Hnl Hq. unfold skew_row.
  rewrite pi_eta_power, tail_power by trivial.
  cbn [nadd nmul npow].
  assert (Hk : 0 < (e + q) * nlam) by (apply Rmult_lt_0_compat; lra).
  rewrite (Rpow_pos _ _ Hk).
  rewrite !ndiv_fin by apply INR_2_neq_0. cbn [nsub npow].
  rewrite (Rpow_pos (INR 2)) by (rewrite INR_2; lra).
  rewrite (Rpow_pos ((PI * e) ^ nl * dS))
    by (apply Rmult_lt_0_compat; trivial; now apply pi_eta_pos).
  rewrite ndiv_fin by (apply Rgt_not_eq, Rpower_pos).
  rewrite kv_spec by apply Rpower_pos. cbn [nmul npow].
  rewrite Rpow_pos by apply Rpower_pos.
  assert (H0 : 0 < e / INR 2) by (rewrite INR_2; lra).
  rewrite (gamma_spec _ H0). cbn [nmul].
  rewrite ndiv_fin by (apply Rgt_not_eq; now apply Gamma_pos).
  cbn [nexp nmul]. unfold skew_pdf. cbv zeta. rewrite !INR_2.
  simpl INR. reflexivity.
Qed.

Lemma skew_pdf_pos {sp : Special} (e dS q : R) (nl : nat) (nlam lx : R) :
  0 < e -> 0 < dS -> 0 < nlam -> 0 <= q ->
  0 < skew_pdf e nl dS nlam q lx.
Proof.
  intros He HdS Hnl Hq.
  destruct (skew_row_pos e dS q nl He nlam lx HdS Hnl Hq) as (v & Hv & Hpos).
  rewrite (skew_row_fin e dS q nl nlam lx He HdS Hnl Hq) in Hv.
  now injection Hv as ->.
Qed.


(** ** The determinant of a scaled identity *)

Lemma sum_zero {A : Type} (f : A -> R) (l : list A) :
  (forall j, In j l -> f j = 0) -> fold_right Rplus 0 (map f l) = 0.
Proof.
  induction l as [|a l IH]; intros H; simpl; trivial.
  rewrite H by (simpl; auto). rewrite IH; [lra|].
  intros j Hj. apply H. simpl. auto.
Qed.

Lemma detR_cons (n : nat) (row : list R) (rest : list (list R)) :
  detR (S n) (row :: rest)
  = fold_right Rplus 0
      (map (fun j => (-1) ^ j * nth j row 0
                     * detR n (map (drop_nth j) rest))
           (seq 0 (S n))).
Proof. reflexivity. Qed.

Lemma drop_nth_0 {A : Type} (r : list A) : drop_nth 0 r = tl r.
Proof. now destruct r. Qed.

(** A first row that is zero after its first entry. *)
Lemma det_first_row (n : nat) (row : list R) (rest : list (list R)) :
  (forall j, (1 <= j)%nat -> nth j row 0 = 0) ->
  detR (S n) (row :: rest) = nth 0 row 0 * detR n (map (@tl R) rest).
Proof.
  intros H. rewrite detR_cons. cbn [seq map fold_right].
  rewrite sum_zero.
  - rewrite (map_ext _ _ (@drop_nth_0 R)). simpl. lra.
  - intros j Hj. apply in_seq in Hj. rewrite H by lia. lra.
Qed.

(** A matrix whose first column is zero has determinant zero. *)
Lemma det_zero_col (n : nat) (M : list (list R)) :
  Forall (fun r => nth 0 r 0 = 0) M -> detR (S n) M = 0.
Proof.
  revert M. induction n as [|n IH]; intros [|row rest] HM; trivial;
    inversion HM as [|? ? Hrow Hrest]; subst; rewrite detR_cons;
    apply sum_zero; intros j Hj; apply in_seq in Hj.
  - assert (j = 0%nat) by lia. subst. rewrite Hrow. lra.
  - destruct j as [|j]; [rewrite Hrow; lra|].
    rewrite IH; [lra|]. rewrite Forall_map.
    eapply Forall_impl; [|exact Hrest].
    intros [|a r]; simpl; trivial.
Qed.

(** A first column that is zero below its first entry. *)
Lemma det_first_col (n : nat) (row : list R) (rest : list (list R)) :
  Forall (fun r => nth 0 r 0 = 0) rest ->
  detR (S n) (row :: rest) = nth 0 row 0 * detR n (map (@tl R) rest).
Proof.
  intros H. rewrite detR_cons. cbn [seq map fold_right].
  rewrite sum_zero.
  - rewrite (map_ext _ _ (@drop_nth_0 R)). simpl. lra.
  - intros j Hj. apply in_seq in Hj.
    destruct n as [|n]; [lia|]. destruct j as [|j]; [lia|].
    rewrite det_zero_col; [lra|]. rewrite Forall_map.
    eapply Forall_impl; [|exact H].
    intros [|a r]; simpl; trivial.
Qed.


Lemma scaled_eye_S (c : R) (n : nat) :
  scaled_eye c (S n)
  = (c * 1 :: map (fun _ => c * 0) (seq 0 n))
    :: map (fun r => c * 0 :: r) (scaled_eye c n).
Proof.
  unfold scaled_eye. cbn [seq map]. rewrite <- !seq_shift, !map_map.
  f_equal. apply map_ext. intros i. cbn [map]. now rewrite map_map.
Qed.

Lemma scaled_eye_length (c : R) (n : nat) : length (scaled_eye c n) = n.
Proof. unfold scaled_eye. now rewrite length_map, length_seq. Qed.

Lemma nth_zeros {A : Type} (c : R) (l : list A) (j : nat) :
  nth j (map (fun _ => c * 0) l) 0 = 0.
Proof.
  revert j. induction l as [|a l IH]; intros [|j]; simpl; trivial; lra.
Qed.

Lemma det_scaled_eye (c : R) (n : nat) : detR n (scaled_eye c n) = c ^ n.
Proof.
  induction n as [|n IH]; trivial.
  rewrite scaled_eye_S, det_first_row.
  - rewrite map_map. cbn [tl nth]. rewrite map_id, IH. simpl. lra.
  - intros [|j] Hj; [lia|]. apply nth_zeros.
Qed.

Lemma tails_set_col_0 (z : R) (d : list R) (E : list (list R)) :
  length d = length E ->
  map (@tl R) (set_col 0 d (map (fun r => z :: r) E)) = E.
Proof.
  unfold set_col. revert d.
  induction E as [|r E IH]; intros [|x d] H; simpl in *; try discriminate;
    trivial.
  f_equal. apply IH. now injection H.
Qed.

Lemma tails_set_col_S (z : R) (i : nat) (d : list R) (E : list (list R)) :
  map (@tl R) (set_col (S i) d (map (fun r => z :: r) E)) = set_col i d E.
Proof.
  unfold set_col. revert d.
  induction E as [|r E IH]; intros [|x d]; simpl; trivial.
  f_equal. apply IH.
Qed.

Lemma heads_set_col_S (z : R) (i : nat) (d : list R) (E : list (list R)) :
  Forall (fun r => nth 0 r 0 = z)
         (set_col (S i) d (map (fun r => z :: r) E)).
Proof.
  unfold set_col. revert d.
  induction E as [|r E IH]; intros [|x d]; simpl; constructor; auto.
Qed.

(** Cramer's numerator for a scaled identity. *)
Lemma det_set_col_scaled_eye (c : R) (n i : nat) (d : list R) :
  length d = n -> (i < n)%nat ->
  detR n (set_col i d (scaled_eye c n)) = nth i d 0 * c ^ (n - 1).
Proof.
  revert i d. induction n as [|n IH]; intros i [|x d] Hd Hi;
    simpl in Hd; try lia.
  injection Hd as Hd. rewrite scaled_eye_S.
  change (set_col i (x :: d) (?row :: ?rest))
    with (set_nth i x row :: set_col i d rest).
  destruct i as [|i].
  - rewrite det_first_row.
    + rewrite tails_set_col_0 by now rewrite scaled_eye_length.
      rewrite det_scaled_eye. simpl. now rewrite Nat.sub_0_r.
    + intros [|j] Hj; [lia|]. simpl. apply nth_zeros.
  - rewrite det_first_col.
    + rewrite tails_set_col_S, IH by (trivial; lia).
      destruct n as [|n]; [lia|]. simpl. rewrite Nat.sub_0_r. lra.
    + eapply Forall_impl; [|apply heads_set_col_S].
      intros r Hr. rewrite Hr. lra.
Qed.

Lemma cramer_scaled_eye (c : R) (n : nat) (d : list R) :
  c <> 0 -> length d = n ->
  cramer n (scaled_eye c n) d = map (fun x => x / c) d.
Proof.
  intros Hc Hd. unfold cramer. rewrite (map_as_seq _ d), Hd.
  apply map_ext_in. intros i Hi. apply in_seq in Hi.
  rewrite det_set_col_scaled_eye, det_scaled_eye by (trivial; lia).
  destruct n as [|n]; [lia|]. simpl. rewrite Nat.sub_0_r.
  field. split; trivial. now apply pow_nonzero.
Qed.

Lemma dot_scaled_nonneg (c : R) (d : list R) (a : R) :
  0 < c -> a <= fold_left Rplus (zipWith Rmult d (map (fun x => x / c) d)) a.
Proof.
  intros Hc. revert a. induction d as [|x d IH]; intros a; simpl; [lra|].
  eapply Rle_trans; [|apply IH].
  assert (0 <= x * (x / c)); [|lra].
  unfold Rdiv. rewrite <- Rmult_assoc.
  apply Rmult_le_pos; [nra | left; now apply Rinv_0_lt_compat].
Qed.

Lemma sym_scale_pos (e : R) : 2 < e -> 0 < 1 - 2 / e.
Proof.
  intros He. assert (2 / e < 1); [|lra].
  apply (Rmult_lt_reg_r e); [lra|].
  unfold Rdiv. rewrite Rmult_assoc, Rinv_l by lra. lra.
Qed.

(** The derived scale of the symmetric density is in the domain. *)
Lemma pd_inverse_sym_sigma (e : R) (n : nat) :
  2 < e -> pd_inverse n (sym_sigma e n).
Proof.
  intros He. pose proof (sym_scale_pos e He) as Hc.
  change (sym_sigma e n) with (scaled_eye (1 - 2 / e) n). split.
  - rewrite det_scaled_eye. now apply pow_lt.
  - intros d Hd. unfold quad_form, dotR.
    rewrite cramer_scaled_eye by (trivial; lra).
    now apply dot_scaled_nonneg.
Qed.

(** In one and in two dimensions a symmetric positive-definite matrix has a
    positive determinant and an inverse whose quadratic form is never
    negative. *)
Lemma sym_pos_def_1 (A : list (list R)) :
  sym_pos_def 1 A -> pd_inverse 1 A.
Proof.
  intros (HA & Hrows & _ & Hpos).
  destruct A as [|[|a [|? ?]] [|? ?]]; try discriminate;
    inversion Hrows as [|? ? Hr _]; try discriminate.
  assert (Ha : 0 < a).
  { specialize (Hpos [1] eq_refl). unfold dotR, matvec in Hpos.
    simpl in Hpos. assert (0 < 0 + 1 * (0 + a * 1)); [|lra].
    apply Hpos. exists 0%nat. simpl. lra. }
  split.
  - simpl. lra.
  - intros [|p [|? ?]] Hd; try discriminate.
    unfold quad_form, dotR, cramer. simpl.
    match goal with
    | |- 0 <= ?E => replace E with (p * p / a) by (field; lra)
    end.
    apply Rmult_le_pos; [nra | left; now apply Rinv_0_lt_compat].
Qed.

Lemma sym_pos_def_2 (A : list (list R)) :
  sym_pos_def 2 A -> pd_inverse 2 A.
Proof.
  intros (HA & Hrows & Hsym & Hpos).
  destruct A as [|r1 [|r2 [|? ?]]]; try discriminate.
  inversion Hrows as [|? ? H1 Hrows']; subst.
  inversion Hrows' as [|? ? H2 _]; subst.
  destruct r1 as [|a [|b [|? ?]]]; try discriminate.
  destruct r2 as [|c [|d [|? ?]]]; try discriminate.
  assert (Hbc : b = c) by exact (Hsym 0%nat 1%nat). subst c.
  assert (Hform : forall u v, u <> 0 \/ v <> 0 ->
                    0 < a * u * u + 2 * b * u * v + d * v * v).
  { intros u v Huv. specialize (Hpos [u; v] eq_refl).
    unfold dotR, matvec in Hpos. simpl in Hpos.
    assert (0 < 0 + u * (0 + a * u + b * v) + v * (0 + b * u + d * v));
      [|lra].
    apply Hpos. destruct Huv; [exists 0%nat | exists 1%nat]; trivial. }
  assert (Ha : 0 < a) by (specialize (Hform 1 0); lra).
  assert (Hdet : 0 < a * d - b * b).
  { specialize (Hform (- b) a). nra. }
  split.
  - simpl. lra.
  - intros [|p [|q [|? ?]]] Hd; try discriminate.
    unfold quad_form, dotR, cramer. simpl.
    match goal with
    | |- 0 <= ?E =>
        replace E with ((a * q * q + 2 * b * q * (- p) + d * (- p) * (- p))
                        / (a * d - b * b)) by (field; lra)
    end.
    apply Rmult_le_pos; [|left; now apply Rinv_0_lt_compat].
    destruct (Req_dec_T q 0) as [Hy|Hy].
    + destruct (Req_dec_T p 0) as [Hx|Hx].
      * subst. lra.
      * left. apply Hform. right. lra.
    + left. apply Hform. now left.
Qed.

Lemma FinM_inj (A B : list (list R)) : FinM A = FinM B -> A = B.
Proof.
  intros H. apply (f_equal (map (map to_R))) in H.
  now rewrite !to_R_FinM in H.
Qed.

Section MvSt_formula.
Context {sp : Special}.
Variables (s : density) (b : bool) (e : R).
Variables (k : nat) (D Sg : list (list R)) (m : list R).
Hypothesis Heta : eta s = lift b (Fin e).
Hypothesis He : 2 < e.
Hypothesis Hmu : MvSt.const_mu s = Ok (Vec (FinV m)).
Hypothesis Hm : length m = k.
Hypothesis Hsg : MvSt.const_sigma s = Ok (Mat k (FinM Sg)).
Hypothesis HSg : length Sg = k.
Hypothesis Hpd : sigma s = None \/ pd_inverse k Sg.
Hypothesis HD : rows_of k D.

Lemma MvSt_pd : pd_inverse k Sg.
Proof.
  destruct Hpd as [Hnone|]; trivial.
  rewrite (MvSt_const_sigma_derived s b e Heta Hnone) in Hsg by lra.
  injection Hsg as Hk HS. apply FinM_inj in HS. rewrite <- Hk, <- HS.
  now apply pd_inverse_sym_sigma.
Qed.

(** [MvSt.pdf] returns the documented value at every row; the dimension is
    [self.lam.size] in the power and determinant terms and [self.ndim] in
    the gamma ratio. *)
Lemma MvSt_pdf_value_formula :
  MvSt.pdf_value s (Mat k (FinM D))
  = Ok (Vec (FinV (map (fun d => student_pdf e (length (lam s)) (ndim s)
                                   (detR k Sg) (quad_form k Sg d))
                       (centred D m)))).
Proof.
  destruct MvSt_pd as [Hdet HQ].
  rewrite (MvSt_pdf_rows s b e k D Sg m) by (trivial; lra).
  rewrite map_map. do 2 f_equal. apply map_ext_in. intros d Hd.
  apply sym_row_fin; try lra. apply HQ.
  pose proof (centred_rows_of k D m HD Hm) as Hc.
  unfold rows_of in Hc. rewrite Forall_forall in Hc. now apply Hc.
Qed.

End MvSt_formula.

Lemma Rpower_1_l (y : R) : Rpower 1 y = 1.
Proof. unfold Rpower. now rewrite ln_1, Rmult_0_r, exp_0. Qed.

(** The scenario of the spec: two dimensions, [eta = 10], the origin. *)
Lemma scenario_value {sp : Special} :
  Rpower ((PI * 10) ^ 2 * detR 2 (sym_sigma 10 2)) (- (1 / 2))
  * (Gamma ((10 + INR 2) / 2) / Gamma (10 / 2))
  * Rpower (1 + quad_form 2 (sym_sigma 10 2)
                  (zipWith Rminus [0; 0] [0; 0]) / 10)
           (- (10 + INR 2) / 2)
  = Rpower ((PI * 10) ^ 2 * detR 2 [[4 / 5; 0]; [0; 4 / 5]]) (- (1 / 2))
    * (Gamma 6 / Gamma 5).
Proof.
  assert (Hd : detR 2 (sym_sigma 10 2) = detR 2 [[4 / 5; 0]; [0; 4 / 5]])
    by (unfold sym_sigma, delta; simpl; lra).
  assert (Hq : quad_form 2 (sym_sigma 10 2) (zipWith Rminus [0; 0] [0; 0])
               = 0)
    by (unfold quad_form, dotR, cramer; simpl; lra).
  rewrite Hd, Hq.
  replace ((10 + INR 2) / 2) with 6 by (simpl; lra).
  replace (10 / 2) with 5 by lra.
  replace (1 + 0 / 10) with 1 by lra.
  rewrite Rpower_1_l. ring.
Qed.

(** ** The power term in high dimension *)

Lemma PI_lower : 31415 / 10000 < PI.
Proof.
  pose proof (PI_2_3_7_ineq 1) as [H _].
  unfold sum_f_R0, tg_alt, PI_2_3_7_tg, Ratan_seq in H. simpl in H. lra.
Qed.

Lemma dbl_max_lt : dbl_max < 2 ^ 1024.
Proof.
  unfold dbl_max. change (2 ^ 1024) with (2 ^ S 1023).
  rewrite <- tech_pow_Rmult.
  assert (H : 0 < 2 ^ 1023) by (apply pow_lt; lra).
  assert (H52 : 0 < / 2 ^ 52) by (apply Rinv_0_lt_compat, pow_lt; lra).
  nra.
Qed.

Lemma pow_31415 : 2 ^ 1024 < (31415 / 1000) ^ 206.
Proof.
  assert (H : 2 ^ 1024 * 1000 ^ 206 < 31415 ^ 206).
  { rewrite !pow_IZR, <- mult_IZR. apply IZR_lt. now vm_compute. }
  assert (H1 : 0 < 1000 ^ 206) by (apply pow_lt; lra).
  unfold Rdiv. rewrite Rpow_mult_distr, pow_inv.
  apply (Rmult_lt_reg_r (1000 ^ 206)); trivial.
  rewrite Rmult_assoc, Rinv_l by lra. lra.
Qed.

(** From 206 dimensions on, [(pi * 10) ^ ndim] is beyond the doubles. *)
Lemma pi_10_power_overflows (n : nat) :
  (206 <= n)%nat -> dbl_max < (PI * 10) ^ n.
Proof.
  intros Hn. pose proof PI_lower as Hpi.
  apply Rlt_le_trans with (1 := dbl_max_lt).
  apply Rle_trans with ((31415 / 1000) ^ 206); [left; apply pow_31415|].
  apply Rle_trans with ((PI * 10) ^ 206).
  - apply pow_incr. lra.
  - apply Rle_pow; [lra | exact Hn].
Qed.

(** The scenario of the documentation: two dimensions, [eta = 10], no [mu],
    no [sigma], at the origin. *)
Lemma MvSt_scenario {sp : Special} :
  snd (MvSt.pdf (MvSt.init 2 (flt 10) None None None)
                (Some (Vec [Fin 0; Fin 0])))
  = Ok (Vec [Fin (Rpower ((PI * 10) ^ 2 * detR 2 [[4 / 5; 0]; [0; 4 / 5]])
                         (- (1 / 2))
                  * (Gamma 6 / Gamma 5))]).
Proof.
  cbn [MvSt.pdf snd atleast_2d length].
  rewrite (MvSt_pdf_value_formula _ false 10 2%nat [[0; 0]]
             (sym_sigma 10 2) [0; 0]); trivial; try reflexivity; try lra.
  - cbn [map centred lam ndim set_data MvSt.init with_mu_sigma
         MultiDensity_init repeat length].
    do 4 f_equal. unfold student_pdf. apply scenario_value.
  - apply (MvSt_const_sigma_derived
             (set_data (MvSt.init 2 (flt 10) None None None)
                       (Mat 2 [[Fin 0; Fin 0]])) false 10);
      [reflexivity.. | lra].
  - now left.
  - repeat constructor.
Qed.

(** C1.  In the scenario of the documentation ([ndim = 2], [eta = 10], no
    [mu], no [sigma], [data = [0, 0]]) [pdf] returns the single positive
    value [((pi 10)^2 det(4/5 I))^(-1/2) * Gamma(6)/Gamma(5)] of the
    formula.  In high dimension it does not return the value of the
    formula: [term1] starts with [(np.pi * self.eta) ** ndim],
    [ndim = self.lam.size], and at [eta = 10] and from [ndim = 206] on the
    exact value of that power, [(pi * 10) ^ ndim], is larger than the
    largest double [dbl_max].  The floating-point power cannot hold it
    (Python raises [OverflowError] on a float, NumPy gives [inf] and
    [term1 = 0]), where the value of the formula at the location, about
    [3e26] for [ndim = 206], is an ordinary double. *)
Theorem MvSt_pdf_power_overflows :
  (forall sp : Special,
      snd (MvSt.pdf (MvSt.init 2 (flt 10) None None None)
                    (Some (Vec [Fin 0; Fin 0])))
      = Ok (Vec [Fin (Rpower ((PI * 10) ^ 2
                              * detR 2 [[4 / 5; 0]; [0; 4 / 5]])
                             (- (1 / 2))
                      * (Gamma 6 / Gamma 5))])
      /\ 0 < Rpower ((PI * 10) ^ 2 * detR 2 [[4 / 5; 0]; [0; 4 / 5]])
                    (- (1 / 2))
             * (Gamma 6 / Gamma 5))
  /\ (forall n : nat,
         (206 <= n)%nat ->
         (b1 <- mul (flt PI) (eta (MvSt.init n (flt 10) None None None)) ;;
          pow b1 (int (length (lam (MvSt.init n (flt 10) None None None)))))
         = Ok (Sca (Fin ((PI * 10) ^ n)))
         /\ dbl_max < (PI * 10) ^ n).
Proof.
  split.
  - intros sp. split; [apply MvSt_scenario|].
    apply Rmult_lt_0_compat; [apply Rpower_pos|].
    apply Rmult_lt_0_compat; [|apply Rinv_0_lt_compat];
      apply Gamma_pos; lra.
  - intros n Hn. split; [|now apply pi_10_power_overflows].
    cbn [MvSt.init with_mu_sigma MultiDensity_init eta lam].
    rewrite repeat_length. unfold mul, pow, flt, int. cbn [binop bind].
    do 2 f_equal. apply pi_eta_power. lra.
Qed.

(** ** Zero skewness *)

Lemma dotR_zero_acc (n : nat) (v : list R) (a : R) :
  fold_left Rplus (zipWith Rmult (repeat 0 n) v) a = a.
Proof.
  revert v a. induction n as [|n IH]; intros [|x v] a; simpl; trivial.
  rewrite IH. lra.
Qed.

Lemma dotR_zero_l (n : nat) (v : list R) : dotR (repeat 0 n) v = 0.
Proof. apply dotR_zero_acc. Qed.

Lemma map_const_repeat {A B : Type} (b : B) (l : list A) :
  map (fun _ => b) l = repeat b (length l).
Proof. induction l; simpl; congruence. Qed.

Section Zero_skew.
Context {sp : Special}.
Variables (s : density) (b : bool) (e : R).
Variables (k : nat) (D Sg : list (list R)) (m : list R).
Hypothesis Heta : eta s = lift b (Fin e).
Hypothesis He : 0 < e.
Hypothesis Hlam : lam s = FinV (repeat 0 k).
Hypothesis Hmu : SkStDM.const_mu s = Ok (Vec (FinV m)).
Hypothesis Hm : length m = k.
Hypothesis Hsg : SkStDM.const_sigma s = Ok (Mat k (FinM Sg)).
Hypothesis HSg : length Sg = k.
Hypothesis Hdet : detR k Sg <> 0.
Hypothesis HD : rows_of k D.

(** With [lam = 0] every value of [SkStDM.pdf] is NaN. *)
Lemma SkStDM_pdf_value_zero_skew :
  SkStDM.pdf_value s (Mat k (FinM D)) = Ok (Vec (repeat NaN (length D))).
Proof.
  rewrite (SkStDM_pdf_rows s b e k D Sg m (repeat 0 k));
    trivial; try apply repeat_length.
  rewrite dotR_zero_l. do 2 f_equal.
  rewrite <- (length_map (fun r => zipWith Rminus r m) D).
  fold (centred D m). rewrite <- map_const_repeat.
  apply map_ext. intros d. now apply skew_row_zero_norm.
Qed.

End Zero_skew.

(** With [lam = 0] the derived location and scale of the skewed density are
    those of the symmetric one. *)
Lemma zero_skew_constants (s : density) (b : bool) (e : R) :
  eta s = lift b (Fin e) -> 4 < e ->
  lam s = FinV (repeat 0 (ndim s)) ->
  SkStDM.const_mu s = MvSt.const_mu s
  /\ SkStDM.const_sigma s = MvSt.const_sigma s.
Proof.
  intros Heta He Hlam. split.
  - destruct (mu s) as [mv|] eqn:Hmu.
    + unfold SkStDM.const_mu, MvSt.const_mu. now rewrite Hmu.
    + rewrite (SkStDM_const_mu_derived s b e _ Heta Hlam Hmu) by lra.
      rewrite (MvSt_const_mu_derived s Hmu). do 3 f_equal.
      unfold skew_mu. rewrite map_repeat. f_equal. lra.
  - destruct (sigma s) as [sv|] eqn:Hsg.
    + unfold SkStDM.const_sigma, MvSt.const_sigma. now rewrite Hsg.
    + rewrite (SkStDM_const_sigma_derived s b e _ Heta Hlam Hsg) by lra.
      rewrite (MvSt_const_sigma_derived s b e Heta Hsg) by lra.
      rewrite repeat_length. do 3 f_equal.
      unfold skew_sigma, sym_sigma. rewrite repeat_length.
      apply map_ext. intros i. apply map_ext. intros j.
      rewrite !nth_repeat. lra.
Qed.

(** C2.  Zero skewness: one dimension, [eta = 10], [lam = [0]], no [mu], no
    [sigma], at the origin.  The skewed density has the location and scale
    of the symmetric one, but the Bessel term is [kv(nu, 0) = inf] and the
    power term [0 ** nu = 0]: the skewed [pdf] returns [[nan]], where the
    symmetric [pdf] returns a positive real. *)
Theorem zero_skew_is_nan :
  forall sp : Special,
    snd (SkStDM.pdf (SkStDM.init 1 (flt 10) [Fin 0] None None None)
                    (Some (Vec [Fin 0])))
    = Ok (Vec [NaN])
    /\ exists v,
         snd (MvSt.pdf (MvSt.init 1 (flt 10) None None None)
                       (Some (Vec [Fin 0])))
         = Ok (Vec [Fin v])
         /\ 0 < v.
Proof.
  intros sp.
  change (SkStDM.init 1 (flt 10) [Fin 0] None None None)
    with (MvSt.init 1 (flt 10) None None None).
  cbn [SkStDM.pdf MvSt.pdf snd atleast_2d length].
  set (s0 := set_data (MvSt.init 1 (flt 10) None None None)
                      (Mat 1 [[Fin 0]])).
  assert (Hsg : MvSt.const_sigma s0 = Ok (Mat 1 (FinM (sym_sigma 10 1))))
    by (apply (MvSt_const_sigma_derived s0 false 10);
        [reflexivity.. | lra]).
  destruct (pd_inverse_sym_sigma 10 1) as [Hdet _]; [lra|].
  destruct (zero_skew_constants s0 false 10) as [Emu Esg];
    [reflexivity | lra | reflexivity |].
  split.
  - apply (SkStDM_pdf_value_zero_skew s0 false 10 1%nat [[0]]
             (sym_sigma 10 1) [0]);
      trivial; try reflexivity; try lra.
    + etransitivity; [exact Esg | exact Hsg].
    + repeat constructor.
  - eexists. split.
    + apply (MvSt_pdf_value_formula s0 false 10 1%nat [[0]]
               (sym_sigma 10 1) [0]);
        trivial; try reflexivity; try lra.
      * now left.
      * repeat constructor.
    + cbn [map centred]. apply student_pdf_pos. lra.
Qed.

(** ** The missing-data error *)


Lemma not_NoData_Ok {A : Type} (a : A) : not_NoData (Ok a).
Proof. discriminate. Qed.

Lemma not_NoData_bind {A B : Type} (r : result A) (k : A -> result B) :
  not_NoData r -> (forall a, not_NoData (k a)) -> not_NoData (bind r k).
Proof.
  destruct r as [a|e]; intros H1 H2; [apply H2|].
  unfold not_NoData in *. simpl. intros Hc. apply H1. congruence.
Qed.

Lemma not_NoData_binop (f : num -> num -> num) (x y : ndarray) :
  not_NoData (binop f x y).
Proof.
  unfold not_NoData.
  destruct x as [a|u|c1 m1], y as [b|v|c2 m2]; simpl; try discriminate.
  - destruct (bdim (length u) (length v)); discriminate.
  - destruct (bdim (length u) c2); discriminate.
  - destruct (bdim c1 (length v)); discriminate.
  - destruct (bdim (length m1) (length m2)), (bdim c1 c2); discriminate.
Qed.

Lemma not_NoData_det (a : ndarray) : not_NoData (det a).
Proof.
  unfold not_NoData, det. destruct (finite a); [|discriminate].
  destruct a as [x|v|c m]; try discriminate.
  destruct (Nat.eqb (length m) c); discriminate.
Qed.

Lemma not_NoData_solve (a b : ndarray) : not_NoData (solve a b).
Proof.
  unfold not_NoData, solve. destruct (finite a && finite b); [|discriminate].
  destruct (atleast_2d a) as [x|v|c m]; try discriminate.
  destruct (Nat.eqb (length m) c); [|discriminate].
  destruct (atleast_1d b) as [y|w|T rows]; try discriminate.
  - destruct (Nat.eqb (length w) c); [|discriminate].
    destruct (Req_dec_T _ 0); discriminate.
  - destruct (Nat.eqb (length rows) c); [|discriminate].
    destruct (Req_dec_T _ 0); discriminate.
Qed.

Lemma not_NoData_dot (x : ndarray) (v : list num) : not_NoData (dot x v).
Proof.
  unfold not_NoData. destruct x as [a|u|c m]; simpl; try discriminate.
  - destruct (Nat.eqb (length u) (length v)); discriminate.
  - destruct (Nat.eqb c (length v)); discriminate.
Qed.

Lemma not_NoData_SkStDM_const_mu (s : density) :
  not_NoData (SkStDM.const_mu s).
Proof.
  unfold SkStDM.const_mu. destruct (mu s); [apply not_NoData_Ok|].
  repeat (apply not_NoData_bind; [apply not_NoData_binop | intros]).
  apply not_NoData_binop.
Qed.

Lemma not_NoData_SkStDM_const_sigma (s : density) :
  not_NoData (SkStDM.const_sigma s).
Proof.
  unfold SkStDM.const_sigma. destruct (sigma s); [apply not_NoData_Ok|].
  repeat (apply not_NoData_bind; [apply not_NoData_binop | intros]).
  apply not_NoData_binop.
Qed.

Lemma not_NoData_MvSt_const_mu (s : density) : not_NoData (MvSt.const_mu s).
Proof. unfold MvSt.const_mu. destruct (mu s); apply not_NoData_Ok. Qed.

Lemma not_NoData_MvSt_const_sigma (s : density) :
  not_NoData (MvSt.const_sigma s).
Proof.
  unfold MvSt.const_sigma. destruct (sigma s); [apply not_NoData_Ok|].
  repeat (apply not_NoData_bind; [apply not_NoData_binop | intros]).
  apply not_NoData_binop.
Qed.

(** One step of a computation that cannot raise the missing-data error. *)
Ltac not_NoData_step :=
  first
    [ apply not_NoData_binop
    | apply not_NoData_det
    | apply not_NoData_solve
    | apply not_NoData_dot
    | apply not_NoData_SkStDM_const_mu
    | apply not_NoData_SkStDM_const_sigma
    | apply not_NoData_MvSt_const_mu
    | apply not_NoData_MvSt_const_sigma
    | apply not_NoData_Ok ].

Lemma not_NoData_SkStDM_pdf_value {sp : Special} (s : density)
    (d : ndarray) :
  not_NoData (SkStDM.pdf_value s d).
Proof.
  unfold SkStDM.pdf_value, add, sub, mul, div, pow.
  repeat (apply not_NoData_bind; [not_NoData_step | intros]).
  not_NoData_step.
Qed.

Lemma not_NoData_MvSt_pdf_value {sp : Special} (s : density) (d : ndarray) :
  not_NoData (MvSt.pdf_value s d).
Proof.
  unfold MvSt.pdf_value, add, sub, mul, div, pow.
  repeat (apply not_NoData_bind; [not_NoData_step | intros]).
  not_NoData_step.
Qed.

(** C3 (amended).  For both densities [pdf] raises the missing-data error
    exactly when the call itself passes no data, whatever data the object
    already holds from its construction or from an earlier call; no other
    step of [pdf] raises that error. *)
Theorem pdf_missing_data :
  forall (sp : Special) (s : density) (d : option ndarray),
    (snd (MvSt.pdf s d) = Err NoData <-> d = None)
    /\ (snd (SkStDM.pdf s d) = Err NoData <-> d = None).
Proof.
  intros sp s [x|]; split; split; intros H; try reflexivity;
    try discriminate H; exfalso; cbn [MvSt.pdf SkStDM.pdf snd] in H.
  - now apply (not_NoData_MvSt_pdf_value _ _ H).
  - now apply (not_NoData_SkStDM_pdf_value _ _ H).
Qed.

(** C3, as stated, fails: an object constructed with data raises the
    missing-data error all the same when [pdf] is called without data. *)
Lemma missing_data_counterexample :
  ~ (forall (sp : Special) (s : density) (d : option ndarray),
        snd (MvSt.pdf s d) = Err NoData -> data s = None /\ d = None).
Proof.
  intros H.
  destruct (H const_special
              (MvSt.init 1 (flt 10) None None (Some (Vec [Fin 0]))) None)
    as [Hdata _]; [reflexivity | discriminate Hdata].
Qed.

(** Outside the domain a library may raise: at [eta = 2] the derived scale
    of the symmetric density is the zero matrix and [scipy.linalg.solve]
    raises [LinAlgError]. *)
Lemma eta_two_singular {sp : Special} :
  snd (MvSt.pdf (MvSt.init 1 (flt 2) None None None) (Some (Vec [Fin 0])))
  = Err Singular.
Proof.
  cbn [MvSt.pdf snd atleast_2d length]. unfold MvSt.pdf_value.
  rewrite (MvSt_const_sigma_derived
             (set_data (MvSt.init 1 (flt 2) None None None)
                       (Mat 1 [[Fin 0]])) false 2) by (trivial; lra).
  cbn. destruct (Req_dec_T _ 0) as [_|Hn]; [reflexivity|].
  exfalso. apply Hn. unfold delta. simpl. lra.
Qed.

(** ** The constants of the skewed density *)


(** ** Non-negative values *)

Lemma centred_length (D : list (list R)) (m : list R) :
  length (centred D m) = length D.
Proof. unfold centred. apply length_map. Qed.


(** *** Two dimensions *)

Lemma detR_2 (A B B' C : R) : detR 2 [[A; B]; [B'; C]] = A * C - B * B'.
Proof. simpl. ring. Qed.

Lemma quad_form_2 (A B C x y : R) :
  A * C - B * B <> 0 ->
  quad_form 2 [[A; B]; [B; C]] [x; y]
  = (C * x * x - 2 * B * x * y + A * y * y) / (A * C - B * B).
Proof.
  intros Hd. unfold quad_form, dotR, cramer. simpl. field. lra.
Qed.

(** A symmetric two-by-two matrix with a positive corner and a positive
    determinant: the quadratic form of its inverse is positive. *)
Lemma pd_inverse_2 (A B C : R) :
  0 < A -> 0 < A * C - B * B ->
  pd_inverse 2 [[A; B]; [B; C]]
  /\ forall x y, x <> 0 \/ y <> 0 -> 0 < quad_form 2 [[A; B]; [B; C]] [x; y].
Proof.
  intros HA Hd.
  assert (Hnum : forall x y,
             A * (C * x * x - 2 * B * x * y + A * y * y)
             = (A * y - B * x) ^ 2 + (A * C - B * B) * x ^ 2)
    by (intros; ring).
  split; [split|].
  - now rewrite detR_2.
  - intros [|x [|y [|? ?]]] Hl; try discriminate.
    rewrite quad_form_2 by lra.
    apply Rmult_le_pos; [|left; now apply Rinv_0_lt_compat].
    specialize (Hnum x y).
    assert (0 <= (A * y - B * x) ^ 2) by apply pow2_ge_0.
    assert (0 <= (A * C - B * B) * x ^ 2)
      by (apply Rmult_le_pos; [lra | apply pow2_ge_0]).
    nra.
  - intros x y Hxy. rewrite quad_form_2 by lra.
    apply Rmult_lt_0_compat; [|now apply Rinv_0_lt_compat].
    specialize (Hnum x y).
    assert (H1 : 0 <= (A * y - B * x) ^ 2) by apply pow2_ge_0.
    assert (H2 : 0 <= (A * C - B * B) * x ^ 2)
      by (apply Rmult_le_pos; [lra | apply pow2_ge_0]).
    destruct (Req_dec_T x 0) as [->|Hx].
    + assert (Hy : y <> 0) by (destruct Hxy; [contradiction | trivial]).
      assert (0 < y * y) by nra. nra.
    + assert (0 < x ^ 2) by nra.
      assert (0 < (A * C - B * B) * x ^ 2)
        by now apply Rmult_lt_0_compat.
      nra.
Qed.

Section Two_dimensions.
Variables (e l1 l2 : R).
Hypothesis He : 4 < e.

(** The derived scale in two dimensions, its corner and its determinant. *)
Lemma skew_sigma_2 :
  skew_sigma e [l1; l2]
  = [[(1 - 2 / e) * 1 - 2 * e / ((e - 2) * (e - 4)) * (l1 * l1);
      (1 - 2 / e) * 0 - 2 * e / ((e - 2) * (e - 4)) * (l1 * l2)];
     [(1 - 2 / e) * 0 - 2 * e / ((e - 2) * (e - 4)) * (l2 * l1);
      (1 - 2 / e) * 1 - 2 * e / ((e - 2) * (e - 4)) * (l2 * l2)]].
Proof. reflexivity. Qed.

Lemma skew_sigma_2_sym :
  skew_sigma e [l1; l2]
  = [[(1 - 2 / e) - 2 * e / ((e - 2) * (e - 4)) * (l1 * l1);
      - (2 * e / ((e - 2) * (e - 4)) * (l1 * l2))];
     [- (2 * e / ((e - 2) * (e - 4)) * (l1 * l2));
      (1 - 2 / e) - 2 * e / ((e - 2) * (e - 4)) * (l2 * l2)]].
Proof.
  rewrite skew_sigma_2.
  apply f_equal2;
    [|apply f_equal2; [|reflexivity]];
    (apply f_equal2; [ring | apply f_equal2; [ring | reflexivity]]).
Qed.

Lemma skew_det_2 :
  detR 2 (skew_sigma e [l1; l2])
  = (1 - 2 / e)
    * ((1 - 2 / e) - 2 * e / ((e - 2) * (e - 4)) * (l1 * l1 + l2 * l2)).
Proof. rewrite skew_sigma_2_sym, detR_2. ring. Qed.

End Two_dimensions.

(** *** The defaults of the skewed density *)

(** The scale derived from [eta = 10] and [lam = [0.5, 1.5]], the defaults
    of [SkStDM.from_theta]. *)
Lemma skew_sigma_defaults :
  skew_sigma 10 [1 / 2; 3 / 2]
  = [[167 / 240; - (5 / 16)]; [- (5 / 16); - (11 / 80)]].
Proof.
  rewrite skew_sigma_2_sym.
  apply f_equal2;
    [|apply f_equal2; [|reflexivity]];
    (apply f_equal2; [lra | apply f_equal2; [lra | reflexivity]]).
Qed.

Lemma skew_det_defaults : detR 2 (skew_sigma 10 [1 / 2; 3 / 2]) < 0.
Proof. rewrite skew_det_2 by lra. lra. Qed.

(** C5.  The skewed density at the defaults of [from_theta],
    [theta = [10., .5, 1.5]], inside the documented domain [eta > 4]: the
    derived scale is [[167/240, -5/16], [-5/16, -11/80]], whose determinant
    is negative, the square root of [(pi eta)^ndim det Sigma] is NaN, and
    [pdf] returns NaN for every row of any finite data, where the claim
    has values that are not negative. *)
Theorem skew_pdf_nan_at_defaults :
  forall (sp : Special) (D : list (list R)) (x : ndarray),
    atleast_2d x = Mat 2 (FinM D) -> rows_of 2 D -> D <> [] ->
    exists s,
      SkStDM.from_theta
        (SkStDM.init 2 (flt 10) [Fin (1 / 2); Fin (3 / 2)] None None None)
        [Fin 10; Fin (1 / 2); Fin (3 / 2)] = Ok s
      /\ SkStDM.const_sigma s
         = Ok (Mat 2 (FinM [[167 / 240; - (5 / 16)];
                            [- (5 / 16); - (11 / 80)]]))
      /\ snd (SkStDM.pdf s (Some x)) = Ok (Vec (repeat NaN (length D)))
      /\ ~ Forall nonneg (repeat NaN (length D)).
Proof.
  intros sp D x Hx HD Hne. eexists. split; [reflexivity|].
  set (s := set_lam _ _).
  assert (Hsg : forall d, SkStDM.const_sigma (set_data s d)
                = Ok (Mat 2 (FinM (skew_sigma 10 [1 / 2; 3 / 2]))))
    by (intros d;
        apply (SkStDM_const_sigma_derived (set_data s d) true 10
                 [1 / 2; 3 / 2]); trivial; lra).
  pose proof skew_det_defaults as Hdet.
  split; [|split].
  - rewrite <- skew_sigma_defaults.
    apply (SkStDM_const_sigma_derived s true 10 [1 / 2; 3 / 2]);
      trivial; lra.
  - cbn [SkStDM.pdf snd]. rewrite Hx.
    rewrite (SkStDM_pdf_rows _ true 10 2%nat D
               (skew_sigma 10 [1 / 2; 3 / 2]) (skew_mu 10 [1 / 2; 3 / 2])
               [1 / 2; 3 / 2]); trivial; try lra.
    + do 2 f_equal.
      rewrite <- (centred_length D (skew_mu 10 [1 / 2; 3 / 2])).
      rewrite <- map_const_repeat. apply map_ext. intros d.
      apply skew_row_neg_det; trivial; lra.
    + apply (SkStDM_const_mu_derived _ true 10 [1 / 2; 3 / 2]);
        trivial; lra.
  - destruct D as [|d D]; [contradiction|]. cbn [length repeat].
    intros H. inversion H as [|? ? Hnan _]. exact Hnan.
Qed.

(** ** Parameters *)

(** C7.  For the skewed density [from_theta] splits a flat vector of length
    [ndim + 1]: its first entry is read back from [eta] (an array of that one
    entry) and the remaining [ndim] entries from [lam].  For the symmetric
    density [from_theta] sets [eta] to the given scalar. *)
Theorem from_theta_split :
  (forall (s : density) (theta : list num),
      length theta = S (ndim s) ->
      exists (s' : density) (t0 : num),
        SkStDM.from_theta s theta = Ok s'
        /\ eta s' = Vec [t0]
        /\ t0 :: lam s' = theta
        /\ length (lam s') = ndim s')
  /\ (forall (s : density) (x : num),
         eta (MvSt.from_theta s (Sca x)) = Sca x).
Proof.
  split.
  - intros s [|t0 rest] H; simpl in H; [discriminate|].
    exists (set_lam (set_eta s (Vec [t0])) rest), t0.
    repeat split. simpl. now injection H.
  - reflexivity.
Qed.

Lemma combine_repeat {A B : Type} (a : A) (b : B) (n : nat) :
  combine (repeat a n) (repeat b n) = repeat (a, b) n.
Proof. induction n; simpl; congruence. Qed.

(** C8.  [bounds()] has as many entries as [theta_start(ndim)] has free
    parameters: one for the symmetric density, whose bounds are [(2, None)]
    and whose start is the scalar 10; [ndim + 1] for the skewed density,
    whose bounds are [(4, None)] followed by [ndim] pairs [(None, None)] and
    whose start is 10 followed by [ndim] zeros. *)
Theorem bounds_match_theta_start :
  forall s : density,
    length (MvSt.bounds s) = size (MvSt.theta_start (ndim s))
    /\ length (MvSt.bounds s) = 1%nat
    /\ MvSt.bounds s = [(Some 2%Z, None)]
    /\ MvSt.theta_start (ndim s) = int 10
    /\ length (SkStDM.bounds s) = size (SkStDM.theta_start (ndim s))
    /\ length (SkStDM.bounds s) = S (ndim s)
    /\ SkStDM.bounds s = (Some 4%Z, None) :: repeat (None, None) (ndim s)
    /\ SkStDM.theta_start (ndim s) = Vec (Fin 10 :: repeat (Fin 0) (ndim s)).
Proof.
  intros s.
  assert (Hb : SkStDM.bounds s
               = (Some 4%Z, None) :: repeat (None, None) (ndim s)).
  { unfold SkStDM.bounds. simpl. now rewrite combine_repeat. }
  repeat split; trivial.
  - rewrite Hb. simpl. now rewrite !repeat_length.
  - rewrite Hb. simpl. now rewrite repeat_length.
Qed.


(** C9.  For both densities a call [pdf(data)] with data leaves the object
    with [data] set to the input as a two-dimensional array (a vector of
    length [k] becomes one row of [k] columns, a matrix is kept) and with
    [eta], [lam], [mu], [sigma] and [ndim] unchanged, whether or not the
    evaluation then succeeds. *)
Theorem pdf_sets_only_data :
  forall (sp : Special) (s : density) (x : ndarray),
    only_data_set s (fst (MvSt.pdf s (Some x))) (atleast_2d x)
    /\ only_data_set s (fst (SkStDM.pdf s (Some x))) (atleast_2d x)
    /\ (forall v, x = Vec v -> atleast_2d x = Mat (length v) [v])
    /\ (forall c m, x = Mat c m -> atleast_2d x = Mat c m).
Proof.
  intros sp s x. unfold only_data_set. simpl.
  repeat split; intros; subst; reflexivity.
Qed.

(** ** The working dimension *)

Lemma Rpower_base_inj (a b y : R) :
  0 < a -> 0 < b -> y <> 0 -> Rpower a y = Rpower b y -> a = b.
Proof.
  intros Ha Hb Hy H. unfold Rpower in H. apply exp_inv in H.
  apply ln_inv; trivial. now apply Rmult_eq_reg_l in H.
Qed.

(** One dimension more in the power and determinant terms changes the
    value. *)
Lemma student_pdf_dimension {sp : Special} :
  student_pdf 10 2 1 (detR 1 (sym_sigma 10 1)) 0
  <> student_pdf 10 1 1 (detR 1 (sym_sigma 10 1)) 0.
Proof.
  unfold student_pdf.
  replace (1 + 0 / 10) with 1 by lra. rewrite !Rpower_1_l, !Rmult_1_r.
  assert (HG : 0 < Gamma ((10 + INR 1) / 2) / Gamma (10 / 2)).
  { apply Rmult_lt_0_compat; [|apply Rinv_0_lt_compat];
      apply Gamma_pos; simpl; lra. }
  assert (Hd : detR 1 (sym_sigma 10 1) = 4 / 5)
    by (unfold sym_sigma, delta; simpl; lra).
  rewrite Hd. pose proof PI2_1 as Hpi. intros H.
  apply Rmult_eq_reg_r in H; [|lra].
  apply Rpower_base_inj in H; try lra; simpl; nra.
Qed.

(** The object whose [lam] has two entries while [ndim] is one. *)
Lemma MvSt_mismatch {sp : Special} :
  snd (MvSt.pdf (set_lam (MvSt.init 1 (flt 10) None None None)
                         [Fin 0; Fin 0])
                (Some (Vec [Fin 0])))
  = Ok (Vec [Fin (student_pdf 10 2 1 (detR 1 (sym_sigma 10 1)) 0)]).
Proof.
  cbn [MvSt.pdf snd atleast_2d length].
  rewrite (MvSt_pdf_value_formula _ false 10 1%nat [[0]] (sym_sigma 10 1)
             [0]); trivial; try reflexivity; try lra.
  - cbn [map centred lam set_lam set_data length ndim MvSt.init
         with_mu_sigma MultiDensity_init].
    do 5 f_equal. unfold quad_form, dotR, cramer. simpl. lra.
  - apply (MvSt_const_sigma_derived
             (set_data (set_lam (MvSt.init 1 (flt 10) None None None)
                                [Fin 0; Fin 0])
                       (Mat 1 [[Fin 0]])) false 10);
      [reflexivity.. | lra].
  - now left.
  - repeat constructor.
Qed.

(** [SkStDM.pdf] never reads [self.ndim]. *)
Lemma SkStDM_pdf_ignores_ndim {sp : Special} (s : density) (n : nat)
    (x : option ndarray) :
  snd (SkStDM.pdf (set_ndim s n) x) = snd (SkStDM.pdf s x).
Proof. destruct x; reflexivity. Qed.

Lemma sub_width_mismatch (c : nat) (rows : list (list num)) (mv : list num) :
  c <> length mv -> c <> 1%nat -> length mv <> 1%nat ->
  sub (Mat c rows) (Vec mv) = Err Broadcast.
Proof.
  intros H1 H2 H3. unfold sub. cbn [binop]. unfold bdim.
  destruct (Nat.eqb_spec c (length mv)); [contradiction|].
  destruct (Nat.eqb_spec c 1); [contradiction|].
  destruct (Nat.eqb_spec (length mv) 1); [contradiction|]. reflexivity.
Qed.

(** With [eta] an array of one entry and no [mu], the location has
    [lam.size] entries. *)
Lemma SkStDM_const_mu_size (s : density) (t0 : num) :
  eta s = Vec [t0] -> mu s = None ->
  exists mv, SkStDM.const_mu s = Ok (Vec mv) /\ length mv = length (lam s).
Proof.
  intros Heta Hmu. unfold SkStDM.const_mu. rewrite Hmu, Heta.
  unfold sub, div, int.
  cbn [binop bdim bzip Nat.eqb length bind zipWith map].
  unfold mul.
  rewrite (binop_lift_vec nmul true (ndiv t0 (nsub (Fin (INR 2)) t0))).
  eexists. split; [reflexivity|]. apply length_map.
Qed.

(** Data whose width is neither [lam.size] nor one is refused by
    [self.data - self.const_mu()]. *)
Lemma SkStDM_pdf_wrong_width {sp : Special} (s : density) (t0 : num)
    (c : nat) (rows : list (list num)) :
  eta s = Vec [t0] -> mu s = None ->
  c <> length (lam s) -> c <> 1%nat -> length (lam s) <> 1%nat ->
  SkStDM.pdf_value s (Mat c rows) = Err Broadcast.
Proof.
  intros Heta Hmu H1 H2 H3.
  destruct (SkStDM_const_mu_size s t0 Heta Hmu) as (mv & Hmv & Hl).
  unfold SkStDM.pdf_value. rewrite Hmv. cbn [bind].
  rewrite sub_width_mismatch; trivial; now rewrite Hl.
Qed.

(** [eta = 10] and [lam = [0.5, 0.5]]: the derived scale is positive
    definite. *)
Lemma skew_sigma_half_pd :
  pd_inverse 2 (skew_sigma 10 [1 / 2; 1 / 2])
  /\ 0 < quad_form 2 (skew_sigma 10 [1 / 2; 1 / 2]) [1 / 2; 1 / 2].
Proof.
  rewrite skew_sigma_2_sym.
  destruct (pd_inverse_2
              (1 - 2 / 10 - 2 * 10 / ((10 - 2) * (10 - 4)) * (1 / 2 * (1 / 2)))
              (- (2 * 10 / ((10 - 2) * (10 - 4)) * (1 / 2 * (1 / 2))))
              (1 - 2 / 10 - 2 * 10 / ((10 - 2) * (10 - 4)) * (1 / 2 * (1 / 2))))
    as [Hpd Hq]; [lra | lra |].
  split; [exact Hpd|]. apply Hq. left. lra.
Qed.

(** An object built for three dimensions and given a [theta] of three
    entries: [lam] has two entries, and [pdf] works in two dimensions. *)
Lemma SkStDM_mismatch {sp : Special} :
  let s := set_lam (set_eta (SkStDM.init 3 (flt 10)
                               [Fin 0; Fin 0; Fin 0] None None None)
                            (Vec [Fin 10]))
                   [Fin (1 / 2); Fin (1 / 2)] in
  let Sg := skew_sigma 10 [1 / 2; 1 / 2] in
  let d := [0 - 10 / (2 - 10) * (1 / 2); 0 - 10 / (2 - 10) * (1 / 2)] in
  snd (SkStDM.pdf s (Some (Vec [Fin 0; Fin 0])))
  = Ok (Vec [Fin (skew_pdf 10 2 (detR 2 Sg)
                    (quad_form 2 Sg [1 / 2; 1 / 2])
                    (quad_form 2 Sg d)
                    (dotR (cramer 2 Sg d) [1 / 2; 1 / 2]))])
  /\ 0 < skew_pdf 10 2 (detR 2 Sg)
           (quad_form 2 Sg [1 / 2; 1 / 2])
           (quad_form 2 Sg d)
           (dotR (cramer 2 Sg d) [1 / 2; 1 / 2]).
Proof.
  intros s Sg d.
  destruct skew_sigma_half_pd as [[Hdet Hq] Hnl]. fold Sg in Hdet, Hq, Hnl.
  assert (Hqd : 0 <= quad_form 2 Sg d) by (apply Hq; reflexivity).
  split.
  - cbn [SkStDM.pdf snd atleast_2d length].
    rewrite (SkStDM_pdf_rows _ true 10 2%nat [[0; 0]] Sg
               (skew_mu 10 [1 / 2; 1 / 2]) [1 / 2; 1 / 2]);
      trivial; try lra.
    + cbn [map centred zipWith skew_mu].
      fold d. fold (dotR [1 / 2; 1 / 2] (cramer 2 Sg [1 / 2; 1 / 2])).
      fold (quad_form 2 Sg [1 / 2; 1 / 2]).
      rewrite skew_row_fin; trivial; lra.
    + apply (SkStDM_const_mu_derived _ true 10 [1 / 2; 1 / 2]);
        trivial; lra.
    + apply (SkStDM_const_sigma_derived _ true 10 [1 / 2; 1 / 2]);
        trivial; lra.
    + repeat constructor.
  - apply skew_pdf_pos; trivial; lra.
Qed.

(** [MvSt.pdf] reads [lam] for its size only. *)
Lemma MvSt_pdf_lam_size {sp : Special} (s : density) (l' : list num)
    (x : option ndarray) :
  length l' = length (lam s) ->
  snd (MvSt.pdf (set_lam s l') x) = snd (MvSt.pdf s x).
Proof.
  intros Hl. destruct x as [d|]; [|reflexivity].
  cbn [MvSt.pdf snd]. unfold MvSt.pdf_value.
  cbn [lam set_lam set_data]. rewrite Hl. reflexivity.
Qed.

(** C10.  [SkStDM.from_theta] takes a flat vector of any length from one
    on, without a look at [ndim]: [eta] becomes the array of the first
    entry, [lam] the remaining entries, and [ndim] stays.  [SkStDM.pdf]
    never reads [ndim]; its dimension is [lam.size]: after [from_theta],
    with no [mu], data whose width is neither [lam.size] nor one is refused
    with NumPy's broadcasting error, whatever [ndim] is.  An object built
    with [ndim = 3] and given [theta = [10, 0.5, 0.5]] has a [lam] of two
    entries: for an observation of two entries [pdf] returns the positive
    value of the skewed density in two dimensions, and it refuses an
    observation of three entries.  [MvSt.pdf] reads [lam] for its size
    only; it has [lam.size] in the power terms and [ndim] in the gamma
    ratio, so that with [ndim = 1] and a [lam] of two entries its value at
    the origin is not the documented one. *)
Theorem working_dimension_is_lam_size :
  (forall (s : density) (t0 : num) (rest : list num),
      exists s',
        SkStDM.from_theta s (t0 :: rest) = Ok s'
        /\ eta s' = Vec [t0] /\ shape (eta s') = [1%nat]
        /\ lam s' = rest /\ ndim s' = ndim s)
  /\ (forall (sp : Special) (s : density) (n : nat) (x : option ndarray),
         snd (SkStDM.pdf (set_ndim s n) x) = snd (SkStDM.pdf s x))
  /\ (forall (sp : Special) (s s' : density) (t0 : num) (rest : list num)
             (x : ndarray) (c : nat) (rows : list (list num)),
         SkStDM.from_theta s (t0 :: rest) = Ok s' -> mu s = None ->
         atleast_2d x = Mat c rows ->
         c <> length rest -> c <> 1%nat -> length rest <> 1%nat ->
         snd (SkStDM.pdf s' (Some x)) = Err Broadcast)
  /\ (forall sp : Special,
         let Sg := skew_sigma 10 [1 / 2; 1 / 2] in
         let d := [0 - 10 / (2 - 10) * (1 / 2);
                   0 - 10 / (2 - 10) * (1 / 2)] in
         exists (s' : density) (v : R),
           SkStDM.from_theta
             (SkStDM.init 3 (flt 10) [Fin 0; Fin 0; Fin 0] None None None)
             [Fin 10; Fin (1 / 2); Fin (1 / 2)] = Ok s'
           /\ ndim s' = 3%nat /\ length (lam s') = 2%nat
           /\ snd (SkStDM.pdf s' (Some (Vec [Fin 0; Fin 0])))
              = Ok (Vec [Fin v])
           /\ v = skew_pdf 10 2 (detR 2 Sg)
                    (quad_form 2 Sg [1 / 2; 1 / 2]) (quad_form 2 Sg d)
                    (dotR (cramer 2 Sg d) [1 / 2; 1 / 2])
           /\ 0 < v
           /\ snd (SkStDM.pdf s' (Some (Vec [Fin 0; Fin 0; Fin 0])))
              = Err Broadcast)
  /\ (forall (sp : Special) (s : density) (l' : list num)
             (x : option ndarray),
         length l' = length (lam s) ->
         snd (MvSt.pdf (set_lam s l') x) = snd (MvSt.pdf s x))
  /\ (forall sp : Special,
         exists v,
           snd (MvSt.pdf (set_lam (MvSt.init 1 (flt 10) None None None)
                                  [Fin 0; Fin 0])
                         (Some (Vec [Fin 0])))
           = Ok (Vec [Fin v])
           /\ v = student_pdf 10 2 1 (detR 1 (sym_sigma 10 1)) 0
           /\ v <> student_pdf 10 1 1 (detR 1 (sym_sigma 10 1)) 0).
Proof.
  split; [|split; [|split; [|split; [|split]]]].
  - intros s t0 rest. eexists. repeat split.
  - intros sp s n x. apply SkStDM_pdf_ignores_ndim.
  - intros sp s s' t0 rest x c rows Hs Hmu Hx H1 H2 H3.
    injection Hs as <-. cbn [SkStDM.pdf snd]. rewrite Hx.
    apply (SkStDM_pdf_wrong_width _ t0); trivial.
  - intros sp Sg d. destruct SkStDM_mismatch as [Hv Hpos].
    eexists. eexists. split; [reflexivity|].
    split; [reflexivity|]. split; [reflexivity|].
    split; [exact Hv|]. split; [reflexivity|]. split; [exact Hpos|].
    cbn [SkStDM.pdf snd atleast_2d length].
    apply (SkStDM_pdf_wrong_width _ (Fin 10)); trivial; cbn; lia.
  - intros sp s l' x. apply MvSt_pdf_lam_size.
  - intros sp. eexists. split; [apply MvSt_mismatch |].
    split; [reflexivity | apply student_pdf_dimension].
Qed.

(** ** Simulation *)

Lemma rvs_rows_combine (mv l ig : list num) (normal : list (list num)) :
  zipWith (zipWith nadd)
    (map (fun a => zipWith nadd mv (map (fun x => nmul x a) l)) ig)
    (zipWith (fun r z => bzip nmul r z)
       (map (fun a => [npow a (Fin (1 / 2))]) ig) normal)
  = zipWith (rvs_row mv l) ig normal.
Proof.
  revert normal. induction ig as [|a ig IH]; intros [|z normal]; simpl;
    trivial.
  now rewrite IH.
Qed.

(** With at least two dimensions and two draws, [rvs] returns one row per
    draw, of [ndim] entries. *)
Lemma rvs_rows (s : density) (k c : nat) (mv : list num)
    (cov normal : list (list num)) (ig : list num) :
  (2 <= k)%nat -> (2 <= length ig)%nat ->
  length (lam s) = k ->
  SkStDM.const_mu s = Ok (Vec mv) -> length mv = k ->
  SkStDM.const_sigma s = Ok (Mat c cov) -> length cov = k ->
  length normal = length ig -> rows_of k normal ->
  SkStDM.rvs s ig normal
  = Ok (Mat k (zipWith (rvs_row mv (lam s)) ig normal)).
Proof.
  intros Hk Hn Hl Hmu Hmv Hsg Hcov Hnl Hrows.
  unfold SkStDM.rvs. rewrite Hsg, Hmu. cbn [bind]. rewrite Hcov.
  assert (Hsq : SkStDM.squeeze (Mat k normal) = Mat k normal).
  { destruct normal as [|r1 [|r2 rest]]; simpl in Hnl; try lia.
    destruct k as [|[|k]]; try lia. reflexivity. }
  rewrite Hsq. unfold mul at 1. rewrite binop_vec_newaxis. cbn [bind].
  unfold add at 1. cbn [binop]. rewrite Hmv, Hl, bdim_same. cbn [bind].
  unfold pow, flt, newaxis. cbn [binop bind]. rewrite !map_map.
  unfold mul. cbn [binop]. rewrite !length_map, Hnl, bdim_same, bdim_1_l.
  cbn [bind]. unfold add.
  cbn [map]. rewrite (bzip_same (bzip nmul)) by (rewrite length_map; congruence).
  rewrite (binop_mat_mat nadd k).
  - do 2 f_equal. rewrite <- rvs_rows_combine. f_equal.
    apply map_ext. intros a. apply bzip_same. now rewrite length_map, Hmv, Hl.
  - unfold rows_of. rewrite Forall_map, Forall_forall. intros a _.
    rewrite bzip_same by now rewrite length_map, Hmv, Hl.
    rewrite zipWith_length; now rewrite ?length_map, ?Hmv, ?Hl.
  - clear - Hrows Hnl. revert ig Hnl.
    induction Hrows as [|z normal Hz _ IH]; intros [|a ig] Hnl; simpl in *;
      try discriminate; constructor.
    + now rewrite length_map.
    + apply IH. now injection Hnl.
  - rewrite !length_map, zipWith_length; now rewrite ?length_map.
Qed.

(** C6 at [ndim = 1] and [size = 2]: whatever the draws, [rvs] returns a
    2-by-2 array, not the 2-by-1 array of its docstring.  SciPy's
    [multivariate_normal.rvs] squeezes the 2-by-1 array of normal draws to
    an array of length 2, which then broadcasts against the 2-by-1
    [igrv ** .5] along the wrong axis. *)
Theorem rvs_one_dimension_shape :
  forall m1 m2 z1 z2 : num,
    exists a,
      SkStDM.rvs (SkStDM.init 1 (flt 10) [Fin (1 / 2)] None None None)
                 [m1; m2] [[z1]; [z2]] = Ok a
      /\ shape a = [2%nat; 2%nat].
Proof.
  intros m1 m2 z1 z2. unfold SkStDM.rvs.
  rewrite (SkStDM_const_sigma_derived
             (SkStDM.init 1 (flt 10) [Fin (1 / 2)] None None None)
             false 10 [1 / 2]); trivial; try lra.
  rewrite (SkStDM_const_mu_derived
             (SkStDM.init 1 (flt 10) [Fin (1 / 2)] None None None)
             false 10 [1 / 2]); trivial; try lra.
  cbn [bind mul add pow binop bdim bzip zipWith map length Nat.eqb newaxis
       SkStDM.squeeze heads flat_map firstn app flt lam skew_mu SkStDM.init
       with_mu_sigma MultiDensity_init].
  eexists. split; reflexivity.
Qed.

(** ** The theorems at concrete inputs *)

(** C1 at 206 dimensions. *)
Lemma MvSt_pdf_power_overflows_witness :
  (b1 <- mul (flt PI) (eta (MvSt.init 206 (flt 10) None None None)) ;;
   pow b1 (int (length (lam (MvSt.init 206 (flt 10) None None None)))))
  = Ok (Sca (Fin ((PI * 10) ^ 206)))
  /\ dbl_max < (PI * 10) ^ 206.
Proof. exact (proj2 MvSt_pdf_power_overflows 206%nat (le_n 206)). Defined.



(** C5 at the origin. *)
Lemma skew_pdf_nan_at_defaults_witness :
  exists s,
    SkStDM.from_theta
      (SkStDM.init 2 (flt 10) [Fin (1 / 2); Fin (3 / 2)] None None None)
      [Fin 10; Fin (1 / 2); Fin (3 / 2)] = Ok s
    /\ SkStDM.const_sigma s
       = Ok (Mat 2 (FinM [[167 / 240; - (5 / 16)];
                          [- (5 / 16); - (11 / 80)]]))
    /\ snd (@SkStDM.pdf const_special s (Some (Vec [Fin 0; Fin 0])))
       = Ok (Vec (repeat NaN (length [[0; 0]])))
    /\ ~ Forall nonneg (repeat NaN (length [[0; 0]])).
Proof.
  apply (skew_pdf_nan_at_defaults const_special [[0; 0]]
           (Vec [Fin 0; Fin 0])).
  - reflexivity.
  - repeat constructor.
  - discriminate.
Defined.

(** C7 at [ndim = 2] and [theta = [10, 0.5, 1.5]]. *)
Lemma from_theta_split_witness :
  exists (s' : density) (t0 : num),
    SkStDM.from_theta (SkStDM.init 2 (flt 12) [Fin 0; Fin 0] None None None)
                      [Fin 10; Fin (1 / 2); Fin (3 / 2)] = Ok s'
    /\ eta s' = Vec [t0]
    /\ t0 :: lam s' = [Fin 10; Fin (1 / 2); Fin (3 / 2)]
    /\ length (lam s') = ndim s'.
Proof.
  exact (proj1 from_theta_split
           (SkStDM.init 2 (flt 12) [Fin 0; Fin 0] None None None)
           [Fin 10; Fin (1 / 2); Fin (3 / 2)] eq_refl).
Defined.

(** C10 at [ndim = 3], [theta = [10, 0.5, 0.5]] and an observation of
    three entries. *)
Lemma working_dimension_is_lam_size_witness :
  snd (@SkStDM.pdf const_special
         (set_lam (set_eta (SkStDM.init 3 (flt 10) [Fin 0; Fin 0; Fin 0]
                                        None None None)
                           (Vec [Fin 10]))
                  [Fin (1 / 2); Fin (1 / 2)])
         (Some (Vec [Fin 0; Fin 0; Fin 0])))
  = Err Broadcast.
Proof.
  apply (proj1 (proj2 (proj2 working_dimension_is_lam_size)) const_special
           (SkStDM.init 3 (flt 10) [Fin 0; Fin 0; Fin 0] None None None)
           _ (Fin 10) [Fin (1 / 2); Fin (1 / 2)]
           (Vec [Fin 0; Fin 0; Fin 0]) 3%nat [[Fin 0; Fin 0; Fin 0]]);
    try reflexivity; cbn [length]; lia.
Defined.

(** ** Further properties *)

(** X1.  For the symmetric density with [eta > 2] and no [sigma],
    [const_sigma()] is [(1 - 2/eta) I] of size [ndim]; its determinant is
    [(1 - 2/eta)^ndim > 0], the solution of [Sigma x = d] is
    [d / (1 - 2/eta)], and the quadratic form of [Sigma^-1] is never
    negative: the derived scale is positive definite. *)
Theorem derived_sym_scale :
  forall (s : density) (b : bool) (e : R),
    eta s = lift b (Fin e) -> 2 < e -> sigma s = None ->
    MvSt.const_sigma s = Ok (Mat (ndim s) (FinM (sym_sigma e (ndim s))))
    /\ detR (ndim s) (sym_sigma e (ndim s)) = (1 - 2 / e) ^ ndim s
    /\ 0 < detR (ndim s) (sym_sigma e (ndim s))
    /\ forall d, length d = ndim s ->
         cramer (ndim s) (sym_sigma e (ndim s)) d
         = map (fun x => x / (1 - 2 / e)) d
         /\ 0 <= quad_form (ndim s) (sym_sigma e (ndim s)) d.
Proof.
  intros s b e Heta He Hsg.
  pose proof (sym_scale_pos e He) as Hc.
  destruct (pd_inverse_sym_sigma e (ndim s) He) as [Hdet HQ].
  split; [apply (MvSt_const_sigma_derived s b e); trivial; lra|].
  split; [apply (det_scaled_eye (1 - 2 / e))|].
  split; [exact Hdet|].
  intros d Hd. split; [|now apply HQ].
  apply (cramer_scaled_eye (1 - 2 / e)); trivial. lra.
Qed.

(** X1 at three dimensions and [eta = 10]. *)
Lemma derived_sym_scale_witness :
  2 < 10
  /\ MvSt.const_sigma (MvSt.init 3 (flt 10) None None None)
     = Ok (Mat 3 (FinM (sym_sigma 10 3)))
  /\ detR 3 (sym_sigma 10 3) = (1 - 2 / 10) ^ 3.
Proof.
  assert (H : 2 < 10) by lra.
  destruct (derived_sym_scale (MvSt.init 3 (flt 10) None None None)
              false 10 eq_refl H eq_refl) as (Hsg & Hdet & _).
  split; [exact H|]. split; [exact Hsg | exact Hdet].
Defined.

(** A symmetric two-by-two matrix with a positive corner and a positive
    determinant is positive definite. *)
Lemma sym_pos_def_2_intro (A B C : R) :
  0 < A -> 0 < A * C - B * B -> sym_pos_def 2 [[A; B]; [B; C]].
Proof.
  intros HA Hd. split; [reflexivity|]. split; [repeat constructor|].
  split.
  - intros i j. destruct i as [|[|i]]; destruct j as [|[|j]]; simpl;
      trivial; try (now destruct i); try (now destruct j).
    now destruct i, j.
  - intros [|x [|y [|? ?]]] Hl Hx; try discriminate.
    unfold matvec. cbn [map]. unfold dotR. simpl.
    assert (Hxy : x <> 0 \/ y <> 0).
    { destruct Hx as ([|[|i]] & Hi); simpl in Hi; auto.
      destruct i; simpl in Hi; exfalso; now apply Hi. }
    assert (Hnum : A * (A * x * x + 2 * B * x * y + C * y * y)
                   = (A * x + B * y) ^ 2 + (A * C - B * B) * y ^ 2) by ring.
    assert (H1 : 0 <= (A * x + B * y) ^ 2) by apply pow2_ge_0.
    assert (H2 : 0 <= (A * C - B * B) * y ^ 2)
      by (apply Rmult_le_pos; [lra | apply pow2_ge_0]).
    assert (Hpos : 0 < A * (A * x * x + 2 * B * x * y + C * y * y)).
    { destruct (Req_dec_T y 0) as [->|Hy].
      - assert (Hx0 : x <> 0) by (destruct Hxy; [trivial | contradiction]).
        assert (Hx2 : 0 < x * x) by nra.
        assert (HA2 : 0 < A * A) by nra.
        pose proof (Rmult_lt_0_compat _ _ HA2 Hx2). nra.
      - assert (0 < y ^ 2) by nra.
        assert (0 < (A * C - B * B) * y ^ 2) by now apply Rmult_lt_0_compat.
        nra. }
    assert (Hq : 0 < A * x * x + 2 * B * x * y + C * y * y) by nra.
    match goal with
    | |- 0 < ?E =>
        replace E with (A * x * x + 2 * B * x * y + C * y * y) by ring
    end.
    exact Hq.
Qed.

(** X2.  [rvs] with at least two dimensions and two draws, under the
    conditions that SciPy puts on the draws: a positive [eta], whose half is
    the shape of the inverse-gamma law, a symmetric positive-definite
    [const_sigma()], positive inverse-gamma draws and finite normal draws.
    The result has shape [(size, ndim)] and its rows are
    [const_mu() + lam * m + sqrt(m) * z], [m] the row's inverse-gamma draw
    and [z] its normal draw. *)
Theorem rvs_shape_and_rows :
  forall (s : density) (b : bool) (e : R) (k : nat) (mv : list num)
         (Sg normal : list (list R)) (ig : list R),
    eta s = lift b (Fin e) -> 0 < e ->
    (2 <= k)%nat -> (2 <= length ig)%nat ->
    length (lam s) = k ->
    SkStDM.const_mu s = Ok (Vec mv) -> length mv = k ->
    SkStDM.const_sigma s = Ok (Mat k (FinM Sg)) -> sym_pos_def k Sg ->
    Forall (fun m => 0 < m) ig ->
    length normal = length ig -> rows_of k normal ->
    exists rows,
      SkStDM.rvs s (FinV ig) (FinM normal) = Ok (Mat k rows)
      /\ rows = zipWith (rvs_row mv (lam s)) (FinV ig) (FinM normal)
      /\ shape (Mat k rows) = [length ig; k].
Proof.
  intros s b e k mv Sg normal ig _ _ Hk Hn Hl Hmu Hmv Hsg [HSg _] _ Hnl
         Hrows.
  eexists. split.
  - apply (rvs_rows s k k mv (FinM Sg) (FinM normal) (FinV ig)); trivial;
      rewrite ?length_map; trivial.
    now apply rows_of_map.
  - split; [reflexivity|]. simpl. f_equal.
    rewrite zipWith_length; rewrite !length_map; congruence.
Qed.

Lemma skew_sigma_tenth_spd : sym_pos_def 2 (skew_sigma 10 [1 / 10; 1 / 10]).
Proof. rewrite skew_sigma_2_sym. apply sym_pos_def_2_intro; lra. Qed.

(** X2 at two dimensions and two draws. *)
Lemma rvs_shape_and_rows_witness :
  exists rows,
    SkStDM.rvs
      (SkStDM.init 2 (flt 10) [Fin (1 / 10); Fin (1 / 10)] None None None)
      (FinV [1; 4]) (FinM [[0; 1]; [1; 0]]) = Ok (Mat 2 rows)
    /\ rows
       = zipWith (rvs_row (FinV (skew_mu 10 [1 / 10; 1 / 10]))
                          [Fin (1 / 10); Fin (1 / 10)])
                 (FinV [1; 4]) (FinM [[0; 1]; [1; 0]])
    /\ shape (Mat 2 rows) = [length [1; 4]; 2%nat].
Proof.
  apply (rvs_shape_and_rows
           (SkStDM.init 2 (flt 10) [Fin (1 / 10); Fin (1 / 10)]
                        None None None)
           false 10 2%nat (FinV (skew_mu 10 [1 / 10; 1 / 10]))
           (skew_sigma 10 [1 / 10; 1 / 10])
           [[0; 1]; [1; 0]] [1; 4]);
    try reflexivity; try (simpl; lia); try lra.
  - apply (SkStDM_const_mu_derived
             (SkStDM.init 2 (flt 10) [Fin (1 / 10); Fin (1 / 10)]
                          None None None)
             false 10 [1 / 10; 1 / 10]); trivial; lra.
  - apply (SkStDM_const_sigma_derived
             (SkStDM.init 2 (flt 10) [Fin (1 / 10); Fin (1 / 10)]
                          None None None)
             false 10 [1 / 10; 1 / 10]); trivial; lra.
  - apply skew_sigma_tenth_spd.
  - repeat constructor; lra.
  - repeat constructor.
Defined.

(** ** One observation and a grid *)






(** ** The width of the data *)

Lemma bzip_repeat_l {A B C : Type} (f : A -> B -> C) (a : A) (v : list B) :
  bzip f (repeat a (length v)) v = map (f a) v.
Proof.
  destruct v as [|b [|b' v]]; trivial.
  rewrite bzip_same by now rewrite repeat_length.
  apply zipWith_repeat_l.
Qed.

Lemma sub_one_column (col mv : list num) :
  sub (Mat 1 (map (fun a => [a]) col)) (Vec mv)
  = sub (Mat (length mv) (map (fun a => repeat a (length mv)) col)) (Vec mv).
Proof.
  unfold sub. cbn [binop]. rewrite bdim_1_l, bdim_same, !map_map.
  do 2 f_equal. apply map_ext. intros a. now rewrite bzip_repeat_l.
Qed.

(** X6.  Let [const_mu()] be a finite vector of [n >= 1] entries.  Data of
    one column is broadcast by [self.data - self.const_mu()]: [pdf] of a
    [(T, 1)] grid returns what it returns for the [(T, n)] grid that repeats
    the column [n] times.  Data of any other width than 1 and [n] raises
    NumPy's broadcasting [ValueError], when [n > 1]. *)
Theorem pdf_data_width :
  forall (sp : Special) (s : density) (m : list R),
    m <> [] ->
    (MvSt.const_mu s = Ok (Vec (FinV m)) ->
     (forall col,
         snd (MvSt.pdf s (Some (Mat 1 (map (fun a => [a]) col))))
         = snd (MvSt.pdf s
                  (Some (Mat (length m)
                           (map (fun a => repeat a (length m)) col)))))
     /\ (forall c rows,
            c <> length m -> c <> 1%nat -> length m <> 1%nat ->
            snd (MvSt.pdf s (Some (Mat c rows))) = Err Broadcast))
    /\ (SkStDM.const_mu s = Ok (Vec (FinV m)) ->
        (forall col,
            snd (SkStDM.pdf s (Some (Mat 1 (map (fun a => [a]) col))))
            = snd (SkStDM.pdf s
                     (Some (Mat (length m)
                              (map (fun a => repeat a (length m)) col)))))
        /\ (forall c rows,
               c <> length m -> c <> 1%nat -> length m <> 1%nat ->
               snd (SkStDM.pdf s (Some (Mat c rows))) = Err Broadcast)).
Proof.
  intros sp s m _.
  rewrite <- (length_map Fin m). split; intros Hmu; split.
  - intros col. cbn [MvSt.pdf snd atleast_2d]. unfold MvSt.pdf_value.
    change (MvSt.const_mu (set_data s _)) with (MvSt.const_mu s).
    rewrite Hmu. cbn [bind]. now rewrite sub_one_column.
  - intros c rows H1 H2 H3. cbn [MvSt.pdf snd atleast_2d].
    unfold MvSt.pdf_value.
    change (MvSt.const_mu (set_data s _)) with (MvSt.const_mu s).
    rewrite Hmu. cbn [bind]. now rewrite sub_width_mismatch.
  - intros col. cbn [SkStDM.pdf snd atleast_2d]. unfold SkStDM.pdf_value.
    change (SkStDM.const_mu (set_data s _)) with (SkStDM.const_mu s).
    rewrite Hmu. cbn [bind]. now rewrite sub_one_column.
  - intros c rows H1 H2 H3. cbn [SkStDM.pdf snd atleast_2d].
    unfold SkStDM.pdf_value.
    change (SkStDM.const_mu (set_data s _)) with (SkStDM.const_mu s).
    rewrite Hmu. cbn [bind]. now rewrite sub_width_mismatch.
Qed.

(** X6 at two dimensions: the column [[1], [2]] and a grid of width 3. *)
Lemma pdf_data_width_witness :
  snd (@MvSt.pdf const_special (MvSt.init 2 (flt 10) None None None)
         (Some (Mat 1 [[Fin 1]; [Fin 2]])))
  = snd (@MvSt.pdf const_special (MvSt.init 2 (flt 10) None None None)
           (Some (Mat 2 [[Fin 1; Fin 1]; [Fin 2; Fin 2]])))
  /\ snd (@MvSt.pdf const_special (MvSt.init 2 (flt 10) None None None)
            (Some (Mat 3 [[Fin 1; Fin 2; Fin 3]])))
     = Err Broadcast.
Proof.
  assert (Hm : [0; 0] <> @nil R) by discriminate.
  destruct (proj1 (pdf_data_width const_special
                     (MvSt.init 2 (flt 10) None None None) [0; 0] Hm)
                  eq_refl) as [H1 H2].
  split.
  - exact (H1 [Fin 1; Fin 2]).
  - apply (H2 3%nat [[Fin 1; Fin 2; Fin 3]]); simpl; lia.
Defined.

(** ** Errors of [scipy.linalg.solve] *)

Lemma forallb_heads_tails {A : Type} (p : A -> bool) (k : nat)
    (m : list (list A)) :
  rows_of (S k) m ->
  forallb (forallb p) m = forallb p (heads m) && forallb (forallb p) (tails m).
Proof.
  induction 1 as [|r m Hr _ IH]; trivial.
  destruct r as [|a r]; [discriminate|].
  change (heads ((a :: r) :: m)) with (a :: heads m).
  change (tails ((a :: r) :: m)) with (r :: tails m).
  cbn [forallb]. rewrite IH.
  destruct (p a), (forallb p r), (forallb p (heads m)); cbn [andb]; trivial.
Qed.

Lemma rows_of_tails {A : Type} (k : nat) (m : list (list A)) :
  rows_of (S k) m -> rows_of k (tails m).
Proof.
  induction 1 as [|r m Hr _ IH]; [constructor|].
  constructor; trivial. destruct r; [discriminate|]. simpl in *. lia.
Qed.

Lemma forallb_columns {A : Type} (p : A -> bool) (k : nat)
    (m : list (list A)) :
  rows_of k m -> forallb (forallb p) (columns k m) = forallb (forallb p) m.
Proof.
  revert m. induction k as [|k IH]; intros m Hm.
  - simpl. induction Hm as [|r m Hr _ IHm]; trivial.
    destruct r; [|discriminate]. exact IHm.
  - cbn [columns forallb]. rewrite IH by now apply rows_of_tails.
    symmetry. now apply (forallb_heads_tails p k).
Qed.

Lemma is_fin_nsub (a : num) (b : R) : is_fin (nsub a (Fin b)) = is_fin a.
Proof. now destruct a. Qed.

Lemma forallb_zipWith_nsub (r : list num) (m : list R) :
  length r = length m ->
  forallb is_fin (zipWith nsub r (FinV m)) = forallb is_fin r.
Proof.
  revert m. induction r as [|a r IH]; intros [|b m] H; try discriminate;
    trivial.
  cbn [map zipWith forallb]. rewrite is_fin_nsub, IH; trivial.
  simpl in H. lia.
Qed.

Lemma finite_centred (k : nat) (rows : list (list num)) (m : list R) :
  rows_of k rows -> length m = k ->
  forallb (forallb is_fin) (map (fun r => zipWith nsub r (FinV m)) rows)
  = forallb (forallb is_fin) rows.
Proof.
  intros Hrows Hm. induction Hrows as [|r rows Hr _ IH]; trivial.
  cbn [map forallb]. rewrite IH, forallb_zipWith_nsub; trivial. congruence.
Qed.

Lemma rows_of_centred_num (k : nat) (rows : list (list num)) (m : list R) :
  rows_of k rows -> length m = k ->
  rows_of k (map (fun r => zipWith nsub r (FinV m)) rows).
Proof.
  intros Hrows Hm. induction Hrows as [|r rows Hr _ IH]; constructor;
    trivial.
  rewrite zipWith_length; trivial. rewrite length_map. congruence.
Qed.

(** The centred data, transposed, is as finite as the data. *)
Lemma diffT_finite (k : nat) (rows : list (list num)) (m : list R) :
  rows_of k rows -> length m = k ->
  exists diff,
    sub (Mat k rows) (Vec (FinV m)) = Ok diff
    /\ finite (transpose diff) = finite (Mat k rows).
Proof.
  intros Hrows Hm.
  exists (Mat k (map (fun r => zipWith nsub r (FinV m)) rows)). split.
  - unfold sub. apply (binop_mat_vec nsub k rows (FinV m)); trivial.
    now rewrite length_map.
  - cbn [transpose finite].
    rewrite forallb_columns by now apply rows_of_centred_num.
    now apply (finite_centred k).
Qed.

Lemma solve_not_finite (a b : ndarray) :
  finite b = false -> solve a b = Err NotFinite.
Proof. intros H. unfold solve. now rewrite H, andb_false_r. Qed.

Lemma solve_not_finite_l (a b : ndarray) :
  finite a = false -> solve a b = Err NotFinite.
Proof. intros H. unfold solve. now rewrite H. Qed.

(** X7.  With a finite location and a finite scale, data that holds a NaN
    or an infinity makes [pdf] raise the [ValueError] of
    [scipy.linalg.solve]'s finiteness check: no NaN is returned. *)
Theorem pdf_rejects_nonfinite_data :
  forall (sp : Special) (s : density) (k : nat) (rows : list (list num))
         (m : list R) (Sg : list (list R)),
    rows_of k rows -> length m = k ->
    finite (Mat k rows) = false ->
    (MvSt.const_mu s = Ok (Vec (FinV m)) ->
     MvSt.const_sigma s = Ok (Mat k (FinM Sg)) ->
     snd (MvSt.pdf s (Some (Mat k rows))) = Err NotFinite)
    /\ (SkStDM.const_mu s = Ok (Vec (FinV m)) ->
        SkStDM.const_sigma s = Ok (Mat k (FinM Sg)) ->
        snd (SkStDM.pdf s (Some (Mat k rows))) = Err NotFinite).
Proof.
  intros sp s k rows m Sg Hrows Hm Hfin.
  destruct (diffT_finite k rows m Hrows Hm) as (diff & Hd & Hf).
  rewrite Hfin in Hf. split; intros Hmu Hsg.
  - cbn [MvSt.pdf snd atleast_2d]. unfold MvSt.pdf_value.
    change (MvSt.const_mu (set_data s _)) with (MvSt.const_mu s).
    change (MvSt.const_sigma (set_data s _)) with (MvSt.const_sigma s).
    rewrite Hmu, Hsg. cbn [bind]. rewrite Hd. cbn [bind].
    now rewrite (solve_not_finite _ _ Hf).
  - cbn [SkStDM.pdf snd atleast_2d]. unfold SkStDM.pdf_value.
    change (SkStDM.const_mu (set_data s _)) with (SkStDM.const_mu s).
    change (SkStDM.const_sigma (set_data s _)) with (SkStDM.const_sigma s).
    rewrite Hmu, Hsg. cbn [bind]. rewrite Hd. cbn [bind].
    now rewrite (solve_not_finite _ _ Hf).
Qed.

(** X7 at one dimension, [eta = 10] and the rows [[0]] and [[nan]]. *)
Lemma pdf_rejects_nonfinite_data_witness :
  snd (@MvSt.pdf const_special (MvSt.init 1 (flt 10) None None None)
         (Some (Mat 1 [[Fin 0]; [NaN]])))
  = Err NotFinite.
Proof.
  apply (proj1 (pdf_rejects_nonfinite_data const_special
                  (MvSt.init 1 (flt 10) None None None) 1%nat
                  [[Fin 0]; [NaN]] [0] (sym_sigma 10 1)
                  ltac:(repeat constructor) eq_refl eq_refl)).
  - reflexivity.
  - apply (MvSt_const_sigma_derived
             (MvSt.init 1 (flt 10) None None None) false 10);
      [reflexivity.. | lra].
Defined.

Lemma solve_singular (k T : nat) (A : list (list R)) (B : list (list num)) :
  length A = k -> length B = k ->
  forallb (forallb is_fin) B = true -> detR k A = 0 ->
  solve (Mat k (FinM A)) (Mat T B) = Err Singular.
Proof.
  intros HA HB HfB Hdet. unfold solve. cbn [finite atleast_2d atleast_1d].
  rewrite finite_FinM, HfB. cbn [andb].
  rewrite !length_map, HA, HB, Nat.eqb_refl, to_R_FinM.
  destruct (Req_dec_T (detR k A) 0); [reflexivity | contradiction].
Qed.

Lemma diffT_singular (k : nat) (D Sg : list (list R)) (m : list R) :
  rows_of k D -> length m = k -> length Sg = k -> detR k Sg = 0 ->
  exists diff,
    sub (Mat k (FinM D)) (Vec (FinV m)) = Ok diff
    /\ solve (Mat k (FinM Sg)) (transpose diff) = Err Singular.
Proof.
  intros HD Hm HSg Hdet. eexists. split.
  - now apply diff_eq.
  - rewrite diffT_eq. apply solve_singular; trivial.
    + now rewrite length_map, columns_length.
    + apply finite_FinM.
Qed.

Lemma MvSt_pdf_value_singular {sp : Special} (s : density) (k : nat)
    (D Sg : list (list R)) (m : list R) :
  rows_of k D -> length m = k -> length Sg = k -> detR k Sg = 0 ->
  MvSt.const_mu s = Ok (Vec (FinV m)) ->
  MvSt.const_sigma s = Ok (Mat k (FinM Sg)) ->
  MvSt.pdf_value s (Mat k (FinM D)) = Err Singular.
Proof.
  intros HD Hm HSg Hdet Hmu Hsg.
  destruct (diffT_singular k D Sg m HD Hm HSg Hdet) as (diff & Hd & Hs).
  unfold MvSt.pdf_value. rewrite Hmu, Hsg. cbn [bind]. rewrite Hd.
  cbn [bind]. now rewrite Hs.
Qed.

(** ** The lower bounds *)

Lemma is_fin_inf_of_mul (a : num) (l : R) :
  is_fin (nsub a (nmul (nmul PInf (Fin l)) (Fin l))) = false.
Proof.
  cbn [nmul]. destruct (Rsgn l) eqn:E; cbn [inf_of nmul]; rewrite ?E;
    now destruct a.
Qed.

Section Lower_bound.
Variables (s : density) (l0 : R) (l : list R).
Hypothesis Heta : eta s = Vec [Fin 4].
Hypothesis Hlam : lam s = FinV (l0 :: l).
Hypothesis Hsg : sigma s = None.

(** At [eta = 4], as [from_theta] stores it, the derived scale of the skewed
    density divides by zero: [const_sigma()] is not finite. *)
Lemma SkStDM_const_sigma_at_4 :
  exists sg, SkStDM.const_sigma s = Ok sg /\ finite sg = false.
Proof.
  unfold SkStDM.const_sigma. rewrite Hsg, Heta, Hlam, length_map.
  change (Vec [Fin 4]) with (lift true (Fin 4)).
  unfold add, sub, mul, div, pow, int, flt, eye.
  repeat np_step. rewrite binop_lift_mat. cbn [bind].
  repeat np_step. rewrite binop_vec_newaxis. cbn [bind].
  rewrite length_map.
  rewrite (binop_mat_mat nsub (length (l0 :: l))).
  - eexists. split; [reflexivity|].
    cbn [finite length eye_rows seq map zipWith forallb Nat.eqb].
    assert (H : nmul (ndiv (ndiv (nmul (Fin (INR 2)) (Fin 4))
                                  (nsub (Fin 4) (Fin (INR 2))))
                            (nsub (Fin 4) (Fin (INR 4)))) (Fin l0)
                = nmul PInf (Fin l0)).
    { f_equal. cbn [nmul nsub]. rewrite ndiv_fin by (simpl; lra).
      cbn [ndiv]. destruct (Req_dec_T (4 - INR 4) 0) as [_|Hn].
      - rewrite Rsgn_pos; trivial. simpl. lra.
      - exfalso. apply Hn. simpl. lra. }
    rewrite H. now rewrite is_fin_inf_of_mul.
  - apply rows_of_map, eye_rows_of.
  - unfold rows_of. rewrite Forall_map, Forall_forall.
    intros a _. now rewrite !length_map.
  - now rewrite !length_map, eye_rows_length.
Qed.

End Lower_bound.

Lemma SkStDM_pdf_value_scale_not_finite {sp : Special} (s : density)
    (k : nat) (D : list (list R)) (m : list R) (sg : ndarray) :
  rows_of k D -> length m = k ->
  SkStDM.const_mu s = Ok (Vec (FinV m)) ->
  SkStDM.const_sigma s = Ok sg -> finite sg = false ->
  SkStDM.pdf_value s (Mat k (FinM D)) = Err NotFinite.
Proof.
  intros HD Hm Hmu Hsg Hf. unfold SkStDM.pdf_value.
  rewrite Hmu, Hsg. cbn [bind]. rewrite (diff_eq k D m HD Hm). cbn [bind].
  now rewrite (solve_not_finite_l sg _ Hf).
Qed.

Lemma sym_sigma_2_singular (k : nat) :
  (1 <= k)%nat -> detR k (sym_sigma 2 k) = 0.
Proof.
  intros Hk. change (sym_sigma 2 k) with (scaled_eye (1 - 2 / 2) k).
  rewrite det_scaled_eye. replace (1 - 2 / 2) with 0 by lra.
  apply pow_i. lia.
Qed.

Lemma sym_sigma_length (e : R) (k : nat) : length (sym_sigma e k) = k.
Proof. unfold sym_sigma. now rewrite length_map, length_seq. Qed.

(** X9.  The lower bound that [bounds()] gives for [eta] is outside the
    domain of [pdf].  With the derived location and scale and at least one
    dimension and one observation: at [eta = 2], the bound of [MvSt], the
    derived scale is the zero matrix and [pdf] raises [LinAlgError]; at
    [eta = 4], the bound of [SkStDM], set through [from_theta], the derived
    scale divides by zero and [pdf] raises the [ValueError] of the
    finiteness check. *)
Theorem pdf_at_lower_bound :
  forall (sp : Special) (s : density) (lo : Z) (k : nat)
         (D : list (list R)),
    mu s = None -> sigma s = None -> (1 <= k)%nat ->
    rows_of k D -> D <> [] ->
    (forall b,
        MvSt.bounds s = [(Some lo, None)] -> ndim s = k ->
        snd (MvSt.pdf (MvSt.from_theta s (lift b (Fin (IZR lo))))
                      (Some (Mat k (FinM D))))
        = Err Singular)
    /\ (forall l s',
           hd_error (SkStDM.bounds s) = Some (Some lo, None) ->
           length l = k ->
           SkStDM.from_theta s (Fin (IZR lo) :: FinV l) = Ok s' ->
           snd (SkStDM.pdf s' (Some (Mat k (FinM D)))) = Err NotFinite).
Proof.
  intros sp s lo k D Hmu Hsg Hk HD _. split.
  - intros b Hb Hn. injection Hb as <-.
    cbn [MvSt.pdf snd atleast_2d].
    apply (MvSt_pdf_value_singular _ k D (sym_sigma 2 k) (repeat 0 k));
      trivial.
    + apply repeat_length.
    + apply sym_sigma_length.
    + now apply sym_sigma_2_singular.
    + rewrite <- Hn.
      now apply (MvSt_const_mu_derived
                   (set_data (MvSt.from_theta s (lift b (Fin 2))) _)).
    + rewrite <- Hn.
      apply (MvSt_const_sigma_derived
               (set_data (MvSt.from_theta s (lift b (Fin 2))) _) b 2);
        trivial; lra.
  - intros l s' Hb Hl Hth. injection Hb as <-. injection Hth as <-.
    destruct l as [|l0 l]; [simpl in Hl; lia|].
    cbn [SkStDM.pdf snd atleast_2d].
    set (st := set_data _ _).
    destruct (SkStDM_const_sigma_at_4 st l0 l) as (sg & Hs & Hf); trivial.
    apply (SkStDM_pdf_value_scale_not_finite st k D
             (skew_mu 4 (l0 :: l)) sg); trivial.
    + unfold skew_mu. now rewrite length_map.
    + apply (SkStDM_const_mu_derived st true 4 (l0 :: l)); trivial; lra.
Qed.

(** X9 at one dimension and the origin. *)
Lemma pdf_at_lower_bound_witness :
  snd (@MvSt.pdf const_special
         (MvSt.from_theta (MvSt.init 1 (flt 10) None None None)
                          (lift false (Fin (IZR 2))))
         (Some (Mat 1 (FinM [[0]]))))
  = Err Singular
  /\ snd (@SkStDM.pdf const_special
            (set_lam (set_eta (SkStDM.init 1 (flt 10) [Fin (1 / 2)]
                                           None None None)
                              (Vec [Fin (IZR 4)]))
                     (FinV [1 / 2]))
            (Some (Mat 1 (FinM [[0]]))))
     = Err NotFinite.
Proof.
  split.
  - apply (proj1 (pdf_at_lower_bound const_special
                    (MvSt.init 1 (flt 10) None None None) 2%Z 1%nat [[0]]
                    eq_refl eq_refl (le_n 1) ltac:(repeat constructor)
                    ltac:(discriminate)) false eq_refl eq_refl).
  - apply (proj2 (pdf_at_lower_bound const_special
                    (SkStDM.init 1 (flt 10) [Fin (1 / 2)] None None None)
                    4%Z 1%nat [[0]]
                    eq_refl eq_refl (le_n 1) ltac:(repeat constructor)
                    ltac:(discriminate)) [1 / 2] _ eq_refl eq_refl
                 eq_refl).
Defined.

(** ** The start values *)

Lemma skew_sigma_zero (e : R) (k : nat) :
  skew_sigma e (repeat 0 k) = sym_sigma e k.
Proof.
  unfold skew_sigma, sym_sigma. rewrite repeat_length.
  apply map_ext. intros i. apply map_ext. intros j.
  rewrite !nth_repeat. lra.
Qed.

Lemma skew_mu_zero (e : R) (k : nat) : skew_mu e (repeat 0 k) = repeat 0 k.
Proof. unfold skew_mu. rewrite map_repeat. f_equal. lra. Qed.

(** X10.  The start values of the skewed density, set through [from_theta],
    with the derived location and scale: [SkStDM.theta_start(k)] gives
    [eta = [10]] and [lam = 0], where every value of [SkStDM.pdf] is NaN, on
    every finite grid of [k >= 1] columns and at least one row. *)
Theorem pdf_at_theta_start :
  forall (sp : Special) (s s' : density) (k : nat) (D : list (list R))
         (th : list num),
    mu s = None -> sigma s = None -> (1 <= k)%nat ->
    rows_of k D -> D <> [] ->
    SkStDM.theta_start k = Vec th ->
    SkStDM.from_theta s th = Ok s' ->
    snd (SkStDM.pdf s' (Some (Mat k (FinM D))))
    = Ok (Vec (repeat NaN (length D))).
Proof.
  intros sp s s' k D th Hmu Hsg Hk HD _ Hth Hs'.
  injection Hth as <-. injection Hs' as <-.
  cbn [SkStDM.pdf snd atleast_2d]. set (st := set_data _ _).
  assert (Hlam : lam st = FinV (repeat 0 k)) by (symmetry; apply map_repeat).
  apply (SkStDM_pdf_value_zero_skew st true 10 k D (sym_sigma 10 k)
           (repeat 0 k)); trivial; try lra.
  - rewrite <- (skew_mu_zero 10 k).
    apply (SkStDM_const_mu_derived st true 10 (repeat 0 k)); trivial; lra.
  - apply repeat_length.
  - rewrite <- (skew_sigma_zero 10 k).
    rewrite <- (repeat_length 0 k) at 1.
    apply (SkStDM_const_sigma_derived st true 10 (repeat 0 k));
      trivial; lra.
  - apply sym_sigma_length.
  - destruct (pd_inverse_sym_sigma 10 k) as [Hdet _]; lra.
Qed.

(** X10 at two dimensions and the rows [[0, 0]] and [[1, 2]]. *)
Lemma pdf_at_theta_start_witness :
  snd (@SkStDM.pdf const_special
         (set_lam (set_eta (SkStDM.init 2 (flt 3) [Fin 1; Fin 1]
                                        None None None)
                           (Vec [Fin 10]))
                  [Fin 0; Fin 0])
         (Some (Mat 2 (FinM [[0; 0]; [1; 2]]))))
  = Ok (Vec (repeat NaN (length [[0; 0]; [1; 2]]))).
Proof.
  apply (pdf_at_theta_start const_special
           (SkStDM.init 2 (flt 3) [Fin 1; Fin 1] None None None) _
           2%nat [[0; 0]; [1; 2]] [Fin 10; Fin 0; Fin 0]
           eq_refl eq_refl ltac:(repeat constructor)
           ltac:(repeat constructor) ltac:(discriminate) eq_refl eq_refl).
Defined.

(** ** The peak of the symmetric density *)







(** ** The stored data *)

Lemma atleast_2d_idem (x : ndarray) : atleast_2d (atleast_2d x) = atleast_2d x.
Proof. destruct x as [a|v|c m]; trivial. Qed.

(** X12.  [pdf] keeps no state but [self.data]: after any earlier call,
    with data or without, a call returns the value and leaves the object
    that the same call gives on the original object; and evaluating again at
    the stored [self.data] returns the same value and leaves the object as
    it is. *)
Theorem pdf_keeps_no_state :
  forall (sp : Special) (s : density) (x : ndarray) (old : option ndarray),
    (MvSt.pdf (fst (MvSt.pdf s old)) (Some x) = MvSt.pdf s (Some x)
     /\ MvSt.pdf (fst (MvSt.pdf s (Some x)))
                 (data (fst (MvSt.pdf s (Some x))))
        = MvSt.pdf s (Some x))
    /\ (SkStDM.pdf (fst (SkStDM.pdf s old)) (Some x) = SkStDM.pdf s (Some x)
        /\ SkStDM.pdf (fst (SkStDM.pdf s (Some x)))
                      (data (fst (SkStDM.pdf s (Some x))))
           = SkStDM.pdf s (Some x)).
Proof.
  intros sp s x old. repeat split.
  - destruct old; reflexivity.
  - cbn [MvSt.pdf fst data set_data]. now rewrite atleast_2d_idem.
  - destruct old; reflexivity.
  - cbn [SkStDM.pdf fst data set_data]. now rewrite atleast_2d_idem.
Qed.

(** ** The location *)

Lemma zipWith_Rminus_zero (r : list R) :
  zipWith Rminus r (repeat 0 (length r)) = r.
Proof. induction r as [|a r IH]; simpl; trivial. rewrite IH. f_equal. lra. Qed.

Lemma centred_zero (k : nat) (D : list (list R)) :
  rows_of k D -> centred D (repeat 0 k) = D.
Proof.
  induction 1 as [|r D Hr _ IH]; trivial.
  simpl. rewrite IH. f_equal. rewrite <- Hr. apply zipWith_Rminus_zero.
Qed.

Lemma sub_location (k : nat) (D : list (list R)) (m : list R) :
  rows_of k D -> length m = k ->
  sub (Mat k (FinM (centred D m))) (Vec (FinV (repeat 0 k)))
  = sub (Mat k (FinM D)) (Vec (FinV m)).
Proof.
  intros HD Hm.
  rewrite (diff_eq k D m HD Hm).
  rewrite (diff_eq k (centred D m) (repeat 0 k)).
  - now rewrite centred_zero by now apply centred_rows_of.
  - now apply centred_rows_of.
  - apply repeat_length.
Qed.

(** X13.  The densities are location families: with a supplied finite [mu],
    [pdf] at the grid [D] returns what the same object with [mu = 0] returns
    at the centred grid [D - mu]. *)
Theorem pdf_location :
  forall (sp : Special) (s : density) (k : nat) (D : list (list R))
         (m : list R),
    rows_of k D -> length m = k ->
    snd (MvSt.pdf (with_mu_sigma s (Some (Vec (FinV m))) (sigma s))
                  (Some (Mat k (FinM D))))
    = snd (MvSt.pdf (with_mu_sigma s (Some (Vec (FinV (repeat 0 k))))
                                   (sigma s))
                    (Some (Mat k (FinM (centred D m)))))
    /\ snd (SkStDM.pdf (with_mu_sigma s (Some (Vec (FinV m))) (sigma s))
                       (Some (Mat k (FinM D))))
       = snd (SkStDM.pdf (with_mu_sigma s (Some (Vec (FinV (repeat 0 k))))
                                        (sigma s))
                         (Some (Mat k (FinM (centred D m))))).
Proof.
  intros sp s k D m HD Hm. split.
  - cbn [MvSt.pdf snd atleast_2d]. unfold MvSt.pdf_value.
    cbn [MvSt.const_mu mu set_data with_mu_sigma bind].
    now rewrite (sub_location k D m HD Hm).
  - cbn [SkStDM.pdf snd atleast_2d]. unfold SkStDM.pdf_value.
    cbn [SkStDM.const_mu mu set_data with_mu_sigma bind].
    now rewrite (sub_location k D m HD Hm).
Qed.

(** X13 at two dimensions, [mu = [1, 2]] and the rows [[1, 2]] and
    [[3, 5]]. *)
Lemma pdf_location_witness :
  snd (@MvSt.pdf const_special
         (with_mu_sigma (MvSt.init 2 (flt 10) None None None)
                        (Some (Vec (FinV [1; 2]))) None)
         (Some (Mat 2 (FinM [[1; 2]; [3; 5]]))))
  = snd (@MvSt.pdf const_special
           (with_mu_sigma (MvSt.init 2 (flt 10) None None None)
                          (Some (Vec (FinV (repeat 0 2)))) None)
           (Some (Mat 2 (FinM (centred [[1; 2]; [3; 5]] [1; 2]))))).
Proof.
  exact (proj1 (pdf_location const_special
                  (MvSt.init 2 (flt 10) None None None) 2%nat
                  [[1; 2]; [3; 5]] [1; 2]
                  ltac:(repeat constructor) eq_refl)).
Defined.

(** ** Simulation of the symmetric density *)

Lemma MvSt_rvs_rows (s : density) (k c : nat) (mv : list num)
    (cov normal : list (list num)) (ig : list num) :
  (2 <= k)%nat -> (2 <= length ig)%nat ->
  length (lam s) = k ->
  MvSt.const_mu s = Ok (Vec mv) -> length mv = k ->
  MvSt.const_sigma s = Ok (Mat c cov) -> length cov = k ->
  length normal = length ig -> rows_of k normal ->
  MvSt.rvs s ig normal
  = Ok (Mat k (zipWith (rvs_row mv (lam s)) ig normal)).
Proof.
  intros Hk Hn Hl Hmu Hmv Hsg Hcov Hnl Hrows.
  unfold MvSt.rvs. rewrite Hsg, Hmu. cbn [bind]. rewrite Hcov.
  assert (Hsq : SkStDM.squeeze (Mat k normal) = Mat k normal).
  { destruct normal as [|r1 [|r2 rest]]; simpl in Hnl; try lia.
    destruct k as [|[|k]]; try lia. reflexivity. }
  rewrite Hsq. unfold mul at 1. rewrite binop_vec_newaxis. cbn [bind].
  unfold add at 1. cbn [binop]. rewrite Hmv, Hl, bdim_same. cbn [bind].
  unfold pow, flt, newaxis. cbn [binop bind]. rewrite !map_map.
  unfold mul. cbn [binop]. rewrite !length_map, Hnl, bdim_same, bdim_1_l.
  cbn [bind]. unfold add.
  cbn [map]. rewrite (bzip_same (bzip nmul)) by (rewrite length_map; congruence).
  rewrite (binop_mat_mat nadd k).
  - do 2 f_equal. rewrite <- rvs_rows_combine. f_equal.
    apply map_ext. intros a. apply bzip_same. now rewrite length_map, Hmv, Hl.
  - unfold rows_of. rewrite Forall_map, Forall_forall. intros a _.
    rewrite bzip_same by now rewrite length_map, Hmv, Hl.
    rewrite zipWith_length; now rewrite ?length_map, ?Hmv, ?Hl.
  - clear - Hrows Hnl. revert ig Hnl.
    induction Hrows as [|z normal Hz _ IH]; intros [|a ig] Hnl; simpl in *;
      try discriminate; constructor.
    + now rewrite length_map.
    + apply IH. now injection Hnl.
  - rewrite !length_map, zipWith_length; now rewrite ?length_map.
Qed.

Lemma npow_sqrt (m : R) : 0 < m -> npow (Fin m) (Fin (1 / 2)) = Fin (sqrt m).
Proof.
  intros Hm. cbn [npow]. rewrite Rpow_pos by trivial. f_equal.
  replace (1 / 2) with (/ 2) by lra. now apply Rpower_sqrt.
Qed.

Lemma rvs_row_symmetric (m : R) (z : list R) :
  0 < m ->
  rvs_row (FinV (repeat 0 (length z))) (FinV (repeat 0 (length z)))
          (Fin m) (FinV z)
  = FinV (map (fun x => sqrt m * x) z).
Proof.
  intros Hm. unfold rvs_row. rewrite npow_sqrt by trivial.
  induction z as [|x z IH]; trivial.
  cbn [length repeat map zipWith nmul nadd]. rewrite IH.
  do 2 f_equal. lra.
Qed.

Lemma rvs_rows_symmetric (k : nat) (ig : list R) (normal : list (list R)) :
  rows_of k normal -> Forall (fun m => 0 < m) ig ->
  zipWith (rvs_row (FinV (repeat 0 k)) (FinV (repeat 0 k)))
          (FinV ig) (FinM normal)
  = FinM (zipWith (fun m z => map (fun x => sqrt m * x) z) ig normal).
Proof.
  intros Hrows Hig. revert normal Hrows.
  induction Hig as [|m ig Hm _ IH]; intros normal Hrows; trivial.
  destruct Hrows as [|z normal Hz Hrows]; trivial.
  cbn [map zipWith]. rewrite IH by trivial. f_equal.
  rewrite <- Hz. now apply rvs_row_symmetric.
Qed.

(** X15.  [rvs] on an [MvSt] object, as constructed ([lam = 0]) and with the
    derived location and scale, [eta > 2], at least two dimensions and two
    draws: the result has shape [(size, ndim)] and its [i]-th row is
    [sqrt(m_i) * z_i], a normal draw [z_i] scaled by the root of the
    positive inverse-gamma draw [m_i]. *)
Theorem MvSt_rvs_scale_mixture :
  forall (s : density) (b : bool) (e : R) (k : nat) (ig : list R)
         (normal : list (list R)),
    eta s = lift b (Fin e) -> 2 < e ->
    ndim s = k -> lam s = FinV (repeat 0 k) ->
    mu s = None -> sigma s = None ->
    (2 <= k)%nat -> (2 <= length ig)%nat ->
    length normal = length ig -> rows_of k normal ->
    Forall (fun m => 0 < m) ig ->
    MvSt.rvs s (FinV ig) (FinM normal)
    = Ok (Mat k (FinM (zipWith (fun m z => map (fun x => sqrt m * x) z)
                               ig normal)))
    /\ shape (Mat k (FinM (zipWith (fun m z => map (fun x => sqrt m * x) z)
                                   ig normal)))
       = [length ig; k].
Proof.
  intros s b e k ig normal Heta He Hn Hlam Hmu Hsg Hk Hsz Hnl Hrows Hig.
  split.
  - rewrite (MvSt_rvs_rows s k k (FinV (repeat 0 k))
               (FinM (sym_sigma e k)) (FinM normal) (FinV ig)); trivial.
    + rewrite Hlam. now rewrite rvs_rows_symmetric.
    + now rewrite length_map.
    + now rewrite Hlam, length_map, repeat_length.
    + rewrite <- Hn. now apply MvSt_const_mu_derived.
    + now rewrite length_map, repeat_length.
    + rewrite <- Hn. apply (MvSt_const_sigma_derived s b e); trivial. lra.
    + now rewrite length_map, sym_sigma_length.
    + now rewrite !length_map.
    + now apply rows_of_map.
  - cbn [shape]. rewrite length_map. f_equal.
    clear - Hnl. revert normal Hnl.
    induction ig as [|m ig IH]; intros [|z normal] Hnl; simpl in *;
      try discriminate; trivial.
    f_equal. apply IH. now injection Hnl.
Qed.

(** X15 at two dimensions, [eta = 10], the mixing draws [1] and [4] and the
    normal draws [[0, 1]] and [[1, 0]]. *)
Lemma MvSt_rvs_scale_mixture_witness :
  2 < 10
  /\ MvSt.rvs (MvSt.init 2 (flt 10) None None None)
              (FinV [1; 4]) (FinM [[0; 1]; [1; 0]])
     = Ok (Mat 2 (FinM (zipWith (fun m z => map (fun x => sqrt m * x) z)
                                [1; 4] [[0; 1]; [1; 0]])))
  /\ shape (Mat 2 (FinM (zipWith (fun m z => map (fun x => sqrt m * x) z)
                                 [1; 4] [[0; 1]; [1; 0]])))
     = [length [1; 4]; 2%nat].
Proof.
  assert (H : 2 < 10) by lra. split; [exact H|].
  apply (MvSt_rvs_scale_mixture (MvSt.init 2 (flt 10) None None None)
           false 10 2%nat [1; 4] [[0; 1]; [1; 0]]
           eq_refl H eq_refl eq_refl eq_refl eq_refl (le_n 2) (le_n 2)
           eq_refl ltac:(repeat constructor)).
  repeat constructor; lra.
Defined.

(** ** Cramer's rule is homogeneous *)

Lemma set_nth_0 {A : Type} (x a : A) (r : list A) :
  set_nth 0 x (a :: r) = x :: r.
Proof. reflexivity. Qed.

Lemma set_nth_S {A : Type} (i : nat) (x a : A) (r : list A) :
  set_nth (S i) x (a :: r) = a :: set_nth i x r.
Proof. reflexivity. Qed.

Lemma drop_nth_S {A : Type} (j : nat) (a : A) (r : list A) :
  drop_nth (S j) (a :: r) = a :: drop_nth j r.
Proof. reflexivity. Qed.

Lemma drop_nth_length {A : Type} (j : nat) (r : list A) :
  (j < length r)%nat -> length (drop_nth j r) = (length r - 1)%nat.
Proof.
  revert j. induction r as [|a r IH]; intros j Hj; simpl in Hj; [lia|].
  destruct j as [|j].
  - rewrite drop_nth_0. simpl. lia.
  - rewrite drop_nth_S. simpl. rewrite IH by lia. lia.
Qed.

Lemma nth_set_nth_eq (i : nat) (x : R) (r : list R) :
  (i < length r)%nat -> nth i (set_nth i x r) 0 = x.
Proof.
  revert i. induction r as [|a r IH]; intros i Hi; simpl in Hi; [lia|].
  destruct i as [|i]; [reflexivity|].
  rewrite set_nth_S. simpl. apply IH. lia.
Qed.

Lemma nth_set_nth_neq (i j : nat) (x : R) (r : list R) :
  j <> i -> (i < length r)%nat -> nth j (set_nth i x r) 0 = nth j r 0.
Proof.
  revert i j. induction r as [|a r IH]; intros i j Hji Hi; simpl in Hi;
    [lia|].
  destruct i as [|i].
  - rewrite set_nth_0. destruct j; [contradiction | reflexivity].
  - rewrite set_nth_S. destruct j as [|j]; [reflexivity|].
    simpl. apply IH; lia.
Qed.

Lemma drop_set_eq {A : Type} (i : nat) (x : A) (r : list A) :
  (i < length r)%nat -> drop_nth i (set_nth i x r) = drop_nth i r.
Proof.
  revert i. induction r as [|a r IH]; intros i Hi; simpl in Hi; [lia|].
  destruct i as [|i]; [reflexivity|].
  rewrite set_nth_S, !drop_nth_S, IH; trivial. lia.
Qed.

Lemma drop_set_lt {A : Type} (i j : nat) (x : A) (r : list A) :
  (j <= i)%nat -> (S i < length r)%nat ->
  drop_nth j (set_nth (S i) x r) = set_nth i x (drop_nth j r).
Proof.
  revert i j. induction r as [|a r IH]; intros i j Hji Hi; simpl in Hi;
    [lia|].
  rewrite set_nth_S. destruct j as [|j].
  - now rewrite !drop_nth_0.
  - rewrite !drop_nth_S. destruct i as [|i]; [lia|].
    rewrite set_nth_S, IH; trivial; lia.
Qed.

Lemma drop_set_gt {A : Type} (i j : nat) (x : A) (r : list A) :
  (i < j)%nat -> (j < length r)%nat ->
  drop_nth j (set_nth i x r) = set_nth i x (drop_nth j r).
Proof.
  revert i j. induction r as [|a r IH]; intros i j Hij Hj; simpl in Hj;
    [lia|].
  destruct j as [|j]; [lia|]. destruct i as [|i].
  - now rewrite set_nth_0, !drop_nth_S, set_nth_0.
  - rewrite set_nth_S, !drop_nth_S, set_nth_S, IH; trivial; lia.
Qed.

(** The minors of a matrix with a replaced column. *)
Lemma minor_set_col_eq (n i : nat) (b : list R) (M : list (list R)) :
  rows_of (S n) M -> (i < S n)%nat ->
  map (drop_nth i) (set_col i b M) = map (drop_nth i) (firstn (length b) M).
Proof.
  intros HM Hi. revert b.
  induction HM as [|r M Hr _ IH]; intros [|x b]; trivial.
  cbn [set_col zipWith map length firstn]. fold (set_col i b M).
  rewrite IH, drop_set_eq; trivial. lia.
Qed.

Lemma minor_set_col_lt (n i j : nat) (b : list R) (M : list (list R)) :
  rows_of (S n) M -> (j <= i)%nat -> (S i < S n)%nat ->
  map (drop_nth j) (set_col (S i) b M) = set_col i b (map (drop_nth j) M).
Proof.
  intros HM Hji Hi. revert b.
  induction HM as [|r M Hr _ IH]; intros [|x b]; trivial.
  cbn [set_col zipWith map]. fold (set_col (S i) b M).
  fold (set_col i b (map (drop_nth j) M)).
  rewrite IH, drop_set_lt; trivial. lia.
Qed.

Lemma minor_set_col_gt (n i j : nat) (b : list R) (M : list (list R)) :
  rows_of (S n) M -> (i < j)%nat -> (j < S n)%nat ->
  map (drop_nth j) (set_col i b M) = set_col i b (map (drop_nth j) M).
Proof.
  intros HM Hij Hj. revert b.
  induction HM as [|r M Hr _ IH]; intros [|x b]; trivial.
  cbn [set_col zipWith map]. fold (set_col i b M).
  fold (set_col i b (map (drop_nth j) M)).
  rewrite IH, drop_set_gt; trivial. lia.
Qed.

Lemma rows_of_minor (n j : nat) (M : list (list R)) :
  rows_of (S n) M -> (j < S n)%nat -> rows_of n (map (drop_nth j) M).
Proof.
  intros HM Hj. induction HM as [|r M Hr _ IH]; constructor; trivial.
  rewrite drop_nth_length; lia.
Qed.

Lemma sum_scale {A : Type} (c : R) (f g : A -> R) (l : list A) :
  (forall j, In j l -> f j = c * g j) ->
  fold_right Rplus 0 (map f l) = c * fold_right Rplus 0 (map g l).
Proof.
  induction l as [|a l IH]; intros H; simpl; [lra|].
  rewrite IH by (intros; apply H; now right).
  rewrite (H a) by now left. lra.
Qed.

(** The determinant is homogeneous in each column. *)
Lemma detR_set_col_scale (c : R) (n : nat) :
  forall (i : nat) (A : list (list R)) (b : list R),
    (i < n)%nat -> rows_of n A -> length A = n -> length b = n ->
    detR n (set_col i (map (Rmult c) b) A) = c * detR n (set_col i b A).
Proof.
  induction n as [|n IH]; intros i A b Hi HA HlA Hlb; [lia|].
  destruct A as [|r0 rest]; [discriminate|].
  destruct b as [|b0 bs]; [discriminate|].
  inversion HA as [|? ? Hr0 Hrest]; subst.
  injection HlA as HlA. injection Hlb as Hlb.
  cbn [map set_col zipWith].
  fold (set_col i (map (Rmult c) bs) rest). fold (set_col i bs rest).
  rewrite !detR_cons. apply sum_scale. intros j Hj.
  apply in_seq in Hj. destruct Hj as [_ Hj]. simpl in Hj.
  destruct (Nat.eq_dec j i) as [->|Hji].
  - rewrite !nth_set_nth_eq by lia.
    rewrite !(minor_set_col_eq n i) by trivial.
    rewrite length_map. ring.
  - rewrite !nth_set_nth_neq by lia.
    destruct (Nat.lt_ge_cases j i) as [Hlt|Hge].
    + destruct i as [|i]; [lia|].
      rewrite !(minor_set_col_lt n i j) by (trivial; lia).
      rewrite IH; try lia.
      * ring.
      * now apply rows_of_minor.
      * now rewrite length_map.
    + rewrite !(minor_set_col_gt n i j) by (trivial; lia).
      rewrite IH; try lia.
      * ring.
      * now apply rows_of_minor.
      * now rewrite length_map.
Qed.

Lemma cramer_scale (c : R) (n : nat) (A : list (list R)) (b : list R) :
  rows_of n A -> length A = n -> length b = n ->
  cramer n A (map (Rmult c) b) = map (Rmult c) (cramer n A b).
Proof.
  intros HA HlA Hlb. unfold cramer. rewrite map_map.
  apply map_ext_in. intros i Hi. apply in_seq in Hi.
  rewrite detR_set_col_scale by (trivial; lia).
  unfold Rdiv. ring.
Qed.

Lemma dotR_scale_acc (c : R) (u v : list R) (a : R) :
  fold_left Rplus (zipWith Rmult (map (Rmult c) u) (map (Rmult c) v))
            (c * c * a)
  = c * c * fold_left Rplus (zipWith Rmult u v) a.
Proof.
  revert v a. induction u as [|x u IH]; intros [|y v] a; simpl; trivial.
  rewrite <- IH. f_equal. ring.
Qed.

Lemma dotR_scale (c : R) (u v : list R) :
  dotR (map (Rmult c) u) (map (Rmult c) v) = c * c * dotR u v.
Proof.
  unfold dotR. rewrite <- dotR_scale_acc. f_equal. ring.
Qed.

Lemma dotR_scale_l_acc (c : R) (u v : list R) (a : R) :
  fold_left Rplus (zipWith Rmult (map (Rmult c) u) v) (c * a)
  = c * fold_left Rplus (zipWith Rmult u v) a.
Proof.
  revert v a. induction u as [|x u IH]; intros [|y v] a; simpl; trivial.
  rewrite <- IH. f_equal. ring.
Qed.

(** The quadratic form of [Sigma^-1] is homogeneous of degree two. *)
Lemma quad_form_scale (c : R) (k : nat) (Sg : list (list R)) (d : list R) :
  rows_of k Sg -> length Sg = k -> length d = k ->
  quad_form k Sg (map (Rmult c) d) = c * c * quad_form k Sg d.
Proof.
  intros HS HlS Hd. unfold quad_form.
  rewrite cramer_scale by trivial. apply dotR_scale.
Qed.

(** ** An observation and its mirror image *)

Lemma centred_mirror (m d : list R) :
  zipWith Rminus (mirror m d) m = map (Rmult (-1)) (zipWith Rminus d m).
Proof.
  unfold mirror. revert d. induction m as [|a m IH]; intros [|x d]; trivial.
  cbn [zipWith map]. rewrite IH. f_equal. ring.
Qed.

Lemma mirror_length (k : nat) (m d : list R) :
  length m = k -> length d = k -> length (mirror m d) = k.
Proof.
  intros Hm Hd. unfold mirror. rewrite zipWith_length; congruence.
Qed.

Lemma quad_form_mirror (k : nat) (Sg : list (list R)) (m d : list R) :
  rows_of k Sg -> length Sg = k -> length m = k -> length d = k ->
  quad_form k Sg (zipWith Rminus (mirror m d) m)
  = quad_form k Sg (zipWith Rminus d m).
Proof.
  intros HS HlS Hm Hd. rewrite centred_mirror, quad_form_scale; trivial.
  - ring.
  - rewrite zipWith_length; congruence.
Qed.

Lemma sym_sigma_rows_of (e : R) (k : nat) : rows_of k (sym_sigma e k).
Proof.
  unfold rows_of, sym_sigma. rewrite Forall_map, Forall_forall.
  intros i _. now rewrite length_map, length_seq.
Qed.

(** X16.  The symmetric density is symmetric about its location: in its
    domain ([eta > 2], finite location, a square scale that is derived or
    positive definite) [MvSt.pdf] returns at the mirror image [2 mu - d] of
    an observation [d] what it returns at [d]. *)
Theorem MvSt_pdf_symmetric :
  forall (sp : Special) (s : density) (b : bool) (e : R) (k : nat)
         (Sg : list (list R)) (m d : list R),
    eta s = lift b (Fin e) -> 2 < e ->
    MvSt.const_mu s = Ok (Vec (FinV m)) -> length m = k ->
    MvSt.const_sigma s = Ok (Mat k (FinM Sg)) ->
    length Sg = k -> rows_of k Sg ->
    sigma s = None \/ pd_inverse k Sg ->
    length d = k ->
    snd (MvSt.pdf s (Some (Vec (FinV (mirror m d)))))
    = snd (MvSt.pdf s (Some (Vec (FinV d)))).
Proof.
  intros sp s b e k Sg m d Heta He Hmu Hm Hsg HlS HS Hpd Hd.
  assert (Hmd : length (mirror m d) = k) by now apply mirror_length.
  cbn [MvSt.pdf snd atleast_2d]. rewrite !length_map, Hmd, Hd.
  change [FinV (mirror m d)] with (FinM [mirror m d]).
  change [FinV d] with (FinM [d]).
  rewrite (MvSt_pdf_value_formula
             (set_data s (Mat k (FinM [mirror m d]))) b e k
             [mirror m d] Sg m); trivial; [|repeat constructor; trivial].
  rewrite (MvSt_pdf_value_formula
             (set_data s (Mat k (FinM [d]))) b e k [d] Sg m);
    trivial; [|repeat constructor; trivial].
  cbn [centred map]. now rewrite quad_form_mirror by trivial.
Qed.

(** X16 at two dimensions, [eta = 10], [mu = 0] and the observation
    [[1, 2]], whose mirror image is [[-1, -2]]. *)
Lemma MvSt_pdf_symmetric_witness :
  2 < 10
  /\ snd (@MvSt.pdf const_special (MvSt.init 2 (flt 10) None None None)
            (Some (Vec (FinV (mirror [0; 0] [1; 2])))))
     = snd (@MvSt.pdf const_special (MvSt.init 2 (flt 10) None None None)
              (Some (Vec (FinV [1; 2])))).
Proof.
  assert (H : 2 < 10) by lra. split; [exact H|].
  apply (MvSt_pdf_symmetric const_special
           (MvSt.init 2 (flt 10) None None None) false 10 2%nat
           (sym_sigma 10 2) [0; 0] [1; 2] eq_refl H eq_refl eq_refl).
  - apply (MvSt_const_sigma_derived
             (MvSt.init 2 (flt 10) None None None) false 10);
      [reflexivity.. | lra].
  - reflexivity.
  - apply sym_sigma_rows_of.
  - now left.
  - reflexivity.
Defined.

(** ** Simulation in one dimension *)

Lemma heads_singletons {A : Type} (zs : list A) :
  heads (map (fun z => [z]) zs) = zs.
Proof. induction zs as [|z zs IH]; simpl; congruence. Qed.

Lemma squeeze_column (zs : list num) :
  (2 <= length zs)%nat ->
  SkStDM.squeeze (Mat 1 (map (fun z => [z]) zs)) = Vec zs.
Proof.
  intros H. destruct zs as [|z1 [|z2 zs]]; simpl in H; try lia.
  cbn [SkStDM.squeeze map Nat.eqb].
  change ([z1] :: [z2] :: map (fun z => [z]) zs)
    with (map (fun z => [z]) (z1 :: z2 :: zs)).
  now rewrite heads_singletons.
Qed.

(** The entry of [rvs] in one dimension that pairs the mixing draw [mi]
    with the normal draw [z]. *)
Lemma rvs_one_dim_rows (mu0 l0 : num) (ig zs : list num) :
  (2 <= length ig)%nat -> length zs = length ig ->
  (t1 <- mul (Vec [l0]) (newaxis ig) ;;
   t2 <- add (Vec [mu0]) t1 ;;
   t3 <- pow (newaxis ig) (flt (1 / 2)) ;;
   t4 <- mul t3 (Vec zs) ;;
   add t2 t4)
  = Ok (Mat (length ig)
          (map (fun mi =>
                  map (fun z => nadd (nadd mu0 (nmul l0 mi))
                                     (nmul (npow mi (Fin (1 / 2))) z)) zs)
               ig)).
Proof.
  intros Hn Hz.
  unfold mul at 1. rewrite binop_vec_newaxis. cbn [bind length map].
  unfold add at 1. cbn [binop bdim Nat.eqb bind bzip]. rewrite !map_map.
  unfold pow, flt, newaxis. cbn [binop bind]. rewrite !map_map.
  unfold mul, add. cbn [binop]. rewrite !bdim_1_l. cbn [bind binop].
  rewrite !length_map, Hz, bdim_same, bdim_1_l.
  do 2 f_equal.
  rewrite bzip_same by now rewrite !length_map.
  rewrite map_map, zipWith_map_same. apply map_ext. intros mi.
  cbn [bzip map]. now rewrite map_map.
Qed.

(** X18.  In one dimension [rvs] does not return one draw per row.  Under
    the conditions that SciPy puts on the draws (a positive [eta], a
    positive one-by-one [const_sigma()], positive inverse-gamma draws and
    finite normal draws), with [lam = [l]], [const_mu() = [m]] and
    [size >= 2] draws, SciPy hands back the normal draws as a flat array of
    [size] numbers, and [rvs] returns a [size]-by-[size] array whose entry
    [(i, j)] is [m + l * g_i + sqrt(g_i) * z_j]: the mixing draw [g_i] of
    row [i] paired with the normal draw [z_j] of every row.  The same holds
    on an [MvSt] object. *)
Theorem rvs_one_dimension :
  forall (s : density) (b : bool) (e c0 : R) (m l : num) (ig zs : list R),
    eta s = lift b (Fin e) -> 0 < e -> 0 < c0 ->
    lam s = [l] ->
    (2 <= length ig)%nat -> length zs = length ig ->
    Forall (fun g => 0 < g) ig ->
    (SkStDM.const_mu s = Ok (Vec [m]) ->
     SkStDM.const_sigma s = Ok (Mat 1 [[Fin c0]]) ->
     SkStDM.rvs s (FinV ig) (map (fun z => [Fin z]) zs)
     = Ok (Mat (length ig)
             (map (fun g =>
                     map (fun z => nadd (nadd m (nmul l (Fin g)))
                                        (nmul (Fin (sqrt g)) (Fin z))) zs)
                  ig)))
    /\ (MvSt.const_mu s = Ok (Vec [m]) ->
        MvSt.const_sigma s = Ok (Mat 1 [[Fin c0]]) ->
        MvSt.rvs s (FinV ig) (map (fun z => [Fin z]) zs)
        = Ok (Mat (length ig)
                (map (fun g =>
                        map (fun z => nadd (nadd m (nmul l (Fin g)))
                                           (nmul (Fin (sqrt g)) (Fin z))) zs)
                     ig)))
    /\ shape (Mat (length ig)
                (map (fun g =>
                        map (fun z => nadd (nadd m (nmul l (Fin g)))
                                           (nmul (Fin (sqrt g)) (Fin z))) zs)
                     ig))
       = [length ig; length ig].
Proof.
  intros s b e c0 m l ig zs _ _ _ Hlam Hn Hz Hig.
  assert (Hsq : SkStDM.squeeze (Mat 1 (map (fun z => [Fin z]) zs))
                = Vec (FinV zs)).
  { rewrite <- squeeze_column by (rewrite length_map; lia).
    now rewrite map_map. }
  assert (Hrows :
            map (fun gi =>
                   map (fun z => nadd (nadd m (nmul l gi))
                                      (nmul (npow gi (Fin (1 / 2))) z))
                       (FinV zs))
                (FinV ig)
            = map (fun g =>
                     map (fun z => nadd (nadd m (nmul l (Fin g)))
                                        (nmul (Fin (sqrt g)) (Fin z))) zs)
                  ig).
  { rewrite map_map. apply map_ext_in. intros g Hg.
    rewrite Forall_forall in Hig. rewrite npow_sqrt by now apply Hig.
    now rewrite map_map. }
  assert (Hgen :
            (t1 <- mul (Vec [l]) (newaxis (FinV ig)) ;;
             t2 <- add (Vec [m]) t1 ;;
             t3 <- pow (newaxis (FinV ig)) (flt (1 / 2)) ;;
             t4 <- mul t3 (Vec (FinV zs)) ;;
             add t2 t4)
            = Ok (Mat (length ig)
                    (map (fun g =>
                            map (fun z => nadd (nadd m (nmul l (Fin g)))
                                               (nmul (Fin (sqrt g)) (Fin z)))
                                zs)
                         ig))).
  { rewrite (rvs_one_dim_rows m l (FinV ig) (FinV zs));
      rewrite ?length_map; trivial.
    now rewrite Hrows. }
  repeat split.
  - intros Hmu Hsg. unfold SkStDM.rvs.
    rewrite Hsg, Hmu, Hlam. cbn [bind length]. rewrite Hsq. exact Hgen.
  - intros Hmu Hsg. unfold MvSt.rvs.
    rewrite Hsg, Hmu, Hlam. cbn [bind length]. rewrite Hsq. exact Hgen.
  - cbn [shape]. now rewrite length_map.
Qed.

(** X18 at [eta = 10], [lam = [0.5]] and three draws. *)
Lemma rvs_one_dimension_witness :
  SkStDM.rvs (SkStDM.init 1 (flt 10) [Fin (1 / 2)] None None None)
             (FinV [1; 4; 9]) (map (fun z => [Fin z]) [0; 1; 2])
  = Ok (Mat (length [1; 4; 9])
          (map (fun g =>
                  map (fun z =>
                         nadd (nadd (Fin (10 / (2 - 10) * (1 / 2)))
                                    (nmul (Fin (1 / 2)) (Fin g)))
                              (nmul (Fin (sqrt g)) (Fin z)))
                      [0; 1; 2])
               [1; 4; 9])).
Proof.
  apply (proj1 (rvs_one_dimension
                  (SkStDM.init 1 (flt 10) [Fin (1 / 2)] None None None)
                  false 10 (167 / 240)
                  (Fin (10 / (2 - 10) * (1 / 2))) (Fin (1 / 2))
                  [1; 4; 9] [0; 1; 2]
                  eq_refl ltac:(lra) ltac:(lra) eq_refl
                  ltac:(simpl; lia) eq_refl
                  ltac:(repeat constructor; lra))).
  - apply (SkStDM_const_mu_derived
             (SkStDM.init 1 (flt 10) [Fin (1 / 2)] None None None)
             false 10 [1 / 2]); trivial; lra.
  - rewrite (SkStDM_const_sigma_derived
               (SkStDM.init 1 (flt 10) [Fin (1 / 2)] None None None)
               false 10 [1 / 2]); trivial; try lra.
    cbn [length]. do 2 f_equal. unfold skew_sigma, delta. simpl.
    do 3 f_equal. lra.
Defined.
